(** * Plinth, PageKite module: [get_status], [_apply_changes] and [_run]

    A shallow embedding of [modules/pagekite/pagekite.py].  The module
    drives the external tool [pagekite-configure] through the [actions]
    module; it reads the tool's answers, compares an old and a new status
    dictionary and issues the sub-commands that apply the difference.

    - Python values that travel through the status dictionaries are
      booleans, strings and dictionaries ([value]); a dictionary is a
      [gmap] from strings to values, so [==] on dictionaries is Leibniz
      equality of maps.
    - The objects [_apply_changes] receives by reference (two dictionaries
      and the [messages] list) live in a store indexed by locations.
    - Exceptions and the side effects on the outside world are threaded by a
      state-and-error monad [M]; every call to the [actions] module is
      recorded, with its answer, in a trace.

    The definitions come first: the model, the predicates used to state the
    properties and some example inputs.  The lemmas and theorems follow. *)

From Stdlib Require Import Ascii String.
From stdpp Require Import gmap strings list fin_maps sorting.

Set Warnings "-register-all".

(** ** Python values *)

Inductive value :=
  | VBool (b : bool)
  | VStr (s : string)
  | VDict (d : gmap string value).

Abbreviation dict := (gmap string value).

Global Instance value_eq_dec : EqDecision value.
Proof.
  refine (fix go (v1 v2 : value) : Decision (v1 = v2) :=
    let _ : EqDecision value := @go in
    match v1, v2 with
    | VBool a, VBool b => cast_if (decide (a = b))
    | VStr a, VStr b => cast_if (decide (a = b))
    | VDict a, VDict b => cast_if (decide (a = b))
    | _, _ => right _
    end); congruence.
Defined.

(** Truth value of an object in a condition ([if x:]). *)
Definition truthy (v : value) : bool :=
  match v with
  | VBool b => b
  | VStr s => bool_decide (s ≠ "")
  | VDict d => bool_decide (d ≠ ∅)
  end.

(** An entry of the [messages] list: a pair such as
    [('success', 'Kite details set')]. *)
Definition message : Type := string * string.

(** Objects of the store. *)
Inductive obj :=
  | ODict (d : dict)
  | OList (l : list message).

Global Instance obj_eq_dec : EqDecision obj.
Proof. solve_decision. Defined.

Definition loc := nat.

(** ** [str.split()] without arguments

    The tool's output is a byte string; [split()] cuts it at runs of the
    six ASCII white-space characters and drops empty pieces. *)

Definition isspace (c : ascii) : bool :=
  let n := nat_of_ascii c in
  (Nat.leb 9 n && Nat.leb n 13) || Nat.eqb n 32.

(** [cur] holds the characters of the current piece, last one first. *)
Fixpoint split_from (cur : list ascii) (s : string) : list string :=
  match s with
  | EmptyString =>
      match cur with
      | [] => []
      | _ => [string_of_list_ascii (reverse cur)]
      end
  | String c s' =>
      if isspace c then
        match cur with
        | [] => split_from [] s'
        | _ => string_of_list_ascii (reverse cur) :: split_from [] s'
        end
      else split_from (c :: cur) s'
  end.

Definition split (s : string) : list string := split_from [] s.

(** ** What the module imports *)

(** [actions.superuser_run] and [actions.run] start the tool and give back
    the pair [(output, error)]; the tool keeps its own state ([World]).
    [gettext] is the translation function [_]; [format_service t s] is
    [t.format(service=s)]. *)
Class Externals := {
  World : Type;
  superuser_run : string → list value → World → (string * string) * World;
  run : string → list value → World → (string * string) * World;
  gettext : string → string;
  format_service : string → string → string;
}.

(** ** Exceptions, state and the monad *)

Inductive exn :=
  | KeyError (key : string)
  | IndexError
  | TypeError
  | AttributeError
  | Exception (msg : string).

Global Instance exn_eq_dec : EqDecision exn.
Proof. solve_decision. Defined.

Inductive result (A : Type) :=
  | Ok (a : A)
  | Raise (e : exn).
Arguments Ok {A} a.
Arguments Raise {A} e.

(** One call to the [actions] module together with its answer. *)
Record invocation := Invocation {
  inv_superuser : bool;
  inv_command : string;
  inv_arguments : list value;
  inv_output : string;
  inv_error : string;
}.

Section Pagekite.
Context {E : Externals}.

Record state := State {
  st_world : World;
  st_trace : list invocation;
  st_heap : gmap loc obj;
}.

Definition M (A : Type) : Type := state → result A * state.

Global Instance M_ret : MRet M := λ A a s, (Ok a, s).

Global Instance M_bind : MBind M := λ A B k m s,
  match m s with
  | (Ok a, s') => k a s'
  | (Raise e, s') => (Raise e, s')
  end.

Definition raise {A} (e : exn) : M A := λ s, (Raise e, s).

(** A call to [actions.superuser_run] or [actions.run]. *)
Definition invoke (superuser : bool) (cmd : string) (arguments : list value)
  : M (string * string) := λ s,
  let '((output, error), w) :=
    (if superuser then superuser_run else run) cmd arguments (st_world s) in
  (Ok (output, error),
   {| st_world := w;
      st_trace := st_trace s ++ [Invocation superuser cmd arguments output error];
      st_heap := st_heap s |}).

(** [d[key]] for the object at [l]. *)
Definition getitem (l : loc) (key : string) : M value := λ s,
  match st_heap s !! l with
  | Some (ODict d) =>
      match d !! key with
      | Some v => (Ok v, s)
      | None => (Raise (KeyError key), s)
      end
  | _ => (Raise TypeError, s)
  end.

(** [a != b] for the objects at [l1] and [l2]. *)
Definition ne (l1 l2 : loc) : M bool := λ s,
  (Ok (bool_decide (st_heap s !! l1 ≠ st_heap s !! l2)), s).

(** [xs.append(x)] for the object at [l]. *)
Definition append (l : loc) (x : message) : M unit := λ s,
  match st_heap s !! l with
  | Some (OList xs) =>
      (Ok (),
       {| st_world := st_world s;
          st_trace := st_trace s;
          st_heap := <[l := OList (xs ++ [x])]> (st_heap s) |})
  | _ => (Raise AttributeError, s)
  end.

(** [xs[i]] on a list value. *)
Definition index {A} (xs : list A) (i : nat) : M A :=
  match xs !! i with
  | Some x => mret x
  | None => raise IndexError
  end.

(** [if c: m] *)
Definition when {A} (c : bool) (m : M A) : M unit :=
  if c then m ;; mret () else mret ().

(** [for x in xs: body] *)
Fixpoint for_ {A} (xs : list A) (body : A → M unit) : M unit :=
  match xs with
  | [] => mret ()
  | x :: xs' => body x ;; for_ xs' body
  end.

(** [for x in xs: body], where the body assigns to a local variable. *)
Fixpoint for_fold {A S} (xs : list A) (acc : S) (body : A → S → M S) : M S :=
  match xs with
  | [] => mret acc
  | x :: xs' => acc' ← body x acc; for_fold xs' acc' body
  end.

(** ** The module's functions

    The calls to [cfg.log] only write to the log and are left out. *)

Definition command : string := "pagekite-configure".

(** [_run(arguments, superuser=True)]; [if error:] tests whether the error
    output, a string, is non-empty. *)
Definition _run (arguments : list value) (superuser : bool) : M string :=
  '(output, error) ← invoke superuser command arguments;
  if bool_decide (error ≠ "") then
    raise (Exception ("Error setting/getting PageKite confguration - " +:+ error))
  else mret output.

(** [get_status()]: the dictionary [status] is local until it is returned,
    so it is built as a value; [None] is the result [mret None]. *)
Definition get_status : M (option dict) :=
  let status : dict := ∅ in
  output ← _run [VStr "get-installed"] true;
  tok ← index (split output) 0;
  if bool_decide (tok ≠ "installed") then mret None else
  output ← _run [VStr "get-status"] true;
  tok ← index (split output) 0;
  let status := <["enabled" := VBool (bool_decide (tok = "enabled"))]> status in
  output ← _run [VStr "get-kite"] true;
  let kite_details := split output in
  name ← index kite_details 0;
  let status := <["kite_name" := VStr name]> status in
  secret ← index kite_details 1;
  let status := <["kite_secret" := VStr secret]> status in
  let status := <["service" := VDict ∅]> status in
  status ← for_fold ["http"; "ssh"] status (λ service status,
    output ← _run [VStr "get-service-status"; VStr service] true;
    tok ← index (split output) 0;
    mret (<[service +:+ "_enabled" := VBool (bool_decide (tok = "enabled"))]> status));
  mret (Some status).

(** [_apply_changes(old_status, new_status, messages)]: the three arguments
    are references into the store.  [a or b] evaluates [b] only when [a] is
    false. *)
Definition _apply_changes (old_status new_status messages : loc) : M unit :=
  changed ← ne old_status new_status;
  when changed (_run [VStr "stop"] true);;
  o ← getitem old_status "enabled";
  n ← getitem new_status "enabled";
  when (bool_decide (o ≠ n))
    (n ← getitem new_status "enabled";
     if truthy n then
       _run [VStr "set-status"; VStr "enable"] true;;
       append messages ("success", gettext "PageKite enabled")
     else
       _run [VStr "set-status"; VStr "disable"] true;;
       append messages ("success", gettext "PageKite disabled"));;
  o ← getitem old_status "kite_name";
  n ← getitem new_status "kite_name";
  differ ←
    (if bool_decide (o ≠ n) then mret true else
       o ← getitem old_status "kite_secret";
       n ← getitem new_status "kite_secret";
       mret (bool_decide (o ≠ n)));
  when differ
    (name ← getitem new_status "kite_name";
     secret ← getitem new_status "kite_secret";
     _run [VStr "set-kite"; VStr "--kite-name"; name;
           VStr "--kite-secret"; secret] true;;
     append messages ("success", gettext "Kite details set"));;
  for_ ["http"; "ssh"] (λ service,
    o ← getitem old_status (service +:+ "_enabled");
    n ← getitem new_status (service +:+ "_enabled");
    when (bool_decide (o ≠ n))
      (n ← getitem new_status (service +:+ "_enabled");
       if truthy n then
         _run [VStr "set-service-status"; VStr service; VStr "enable"] true;;
         append messages
           ("success", format_service (gettext "Service enabled: {service}") service)
       else
         _run [VStr "set-service-status"; VStr service; VStr "disable"] true;;
         append messages
           ("success", format_service (gettext "Service disabled: {service}") service)));;
  changed ← ne old_status new_status;
  when changed (_run [VStr "start"] true).

End Pagekite.

(** ** Reading the model *)

Section Reading.
Context {E : Externals}.

(** The argument lists of the calls made so far. *)
Definition calls (s : state) : list (list value) :=
  inv_arguments <$> st_trace s.

(** The answer the tool gives to a call in a given state. *)
Definition answer (superuser : bool) (arguments : list value) (s : state)
  : string * string :=
  ((if superuser then superuser_run else run) command arguments (st_world s)).1.

(** What one call of [_run] does to the state. *)
Definition after_run (arguments : list value) (superuser : bool) (s : state)
  : state :=
  (invoke superuser command arguments s).2.

(** The calls a computation makes when started in [s]. *)
Definition emitted {A} (m : M A) (s : state) : list (list value) :=
  drop (length (st_trace s)) (calls (m s).2).

(** The invocations, with their answers, a computation makes from [s]. *)
Definition made {A} (m : M A) (s : state) : list invocation :=
  drop (length (st_trace s)) (st_trace (m s).2).

Definition error_text (error : string) : string :=
  "Error setting/getting PageKite confguration - " +:+ error.

(** Invocations that all came back with an empty error output. *)
Definition quiet (tr : list invocation) : Prop :=
  Forall (λ i, inv_error i = "") tr.

(** The invocations a computation adds to the trace are all quiet, except
    that the last one may have reported an error, in which case the
    computation raises the exception made from that error. *)
Definition fails_fast {A} (m : M A) : Prop :=
  ∀ s, ∃ new,
    st_trace (m s).2 = st_trace s ++ new ∧
    (quiet new ∨
     ∃ pre i, new = pre ++ [i] ∧ quiet pre ∧ inv_error i ≠ "" ∧
              (m s).1 = Raise (Exception (error_text (inv_error i)))).

End Reading.

(** ** Status mappings *)

(** The five fields of a status mapping. *)
Record status := Status {
  enabled : bool;
  kite_name : string;
  kite_secret : string;
  http_enabled : bool;
  ssh_enabled : bool;
}.

(** A dictionary is a status mapping when the five fields are present with
    their types; [status_of] reads them.  Other keys may be present. *)
Definition status_of (d : dict) : option status :=
  match d !! "enabled", d !! "kite_name", d !! "kite_secret",
        d !! "http_enabled", d !! "ssh_enabled" with
  | Some (VBool e), Some (VStr n), Some (VStr k), Some (VBool h), Some (VBool s) =>
      Some (Status e n k h s)
  | _, _, _, _, _ => None
  end.

Definition toggle (b : bool) : string := if b then "enable" else "disable".

(** The calls a run without errors makes, written out as a list. *)
Definition expected_calls (differ : bool) (o n : status) : list (list value) :=
  (if differ then [[VStr "stop"]] else []) ++
  (if bool_decide (enabled o ≠ enabled n)
   then [[VStr "set-status"; VStr (toggle (enabled n))]] else []) ++
  (if bool_decide (kite_name o ≠ kite_name n ∨ kite_secret o ≠ kite_secret n)
   then [[VStr "set-kite"; VStr "--kite-name"; VStr (kite_name n);
          VStr "--kite-secret"; VStr (kite_secret n)]] else []) ++
  (if bool_decide (http_enabled o ≠ http_enabled n)
   then [[VStr "set-service-status"; VStr "http"; VStr (toggle (http_enabled n))]]
   else []) ++
  (if bool_decide (ssh_enabled o ≠ ssh_enabled n)
   then [[VStr "set-service-status"; VStr "ssh"; VStr (toggle (ssh_enabled n))]]
   else []) ++
  (if differ then [[VStr "start"]] else []).

(** The number of change groups: [enabled], the kite name and secret
    together, and each of the two services. *)
Definition changed_groups (o n : status) : nat :=
  (if bool_decide (enabled o ≠ enabled n) then 1 else 0) +
  (if bool_decide (kite_name o ≠ kite_name n ∨ kite_secret o ≠ kite_secret n)
   then 1 else 0) +
  (if bool_decide (http_enabled o ≠ http_enabled n) then 1 else 0) +
  (if bool_decide (ssh_enabled o ≠ ssh_enabled n) then 1 else 0).

(** The entries a run without errors appends to the messages. *)
Definition expected_messages `{E : Externals} (o n : status) : list message :=
  (if bool_decide (enabled o ≠ enabled n)
   then [("success", gettext (if enabled n then "PageKite enabled"
                              else "PageKite disabled"))] else []) ++
  (if bool_decide (kite_name o ≠ kite_name n ∨ kite_secret o ≠ kite_secret n)
   then [("success", gettext "Kite details set")] else []) ++
  (if bool_decide (http_enabled o ≠ http_enabled n)
   then [("success",
          format_service (gettext (if http_enabled n
                                   then "Service enabled: {service}"
                                   else "Service disabled: {service}")) "http")]
   else []) ++
  (if bool_decide (ssh_enabled o ≠ ssh_enabled n)
   then [("success",
          format_service (gettext (if ssh_enabled n
                                   then "Service enabled: {service}"
                                   else "Service disabled: {service}")) "ssh")]
   else []).

(** ** Kinds of calls *)

(** [is_call name c]: the call [c] is for the sub-command [name]. *)
Definition is_call (name : string) (c : list value) : bool :=
  match c with
  | VStr x :: _ => String.eqb x name
  | _ => false
  end.

(** [is_service_call svc c]: [c] is [set-service-status svc ...]. *)
Definition is_service_call (svc : string) (c : list value) : bool :=
  match c with
  | VStr x :: VStr y :: _ => String.eqb x "set-service-status" && String.eqb y svc
  | _ => false
  end.

(** The place of a call in the order stop, set-status, set-kite,
    set-service-status http, set-service-status ssh, start. *)
Definition rank (c : list value) : nat :=
  if is_call "stop" c then 0
  else if is_call "set-status" c then 1
  else if is_call "set-kite" c then 2
  else if is_service_call "http" c then 3
  else if is_service_call "ssh" c then 4
  else if is_call "start" c then 5
  else 6.

(** A call of one of the [set-...] sub-commands. *)
Definition is_set_call (c : list value) : bool :=
  match c with
  | VStr x :: _ => String.prefix "set-" x
  | _ => false
  end.

(** An invocation of a [set-...] sub-command that came back without error:
    a change that was applied. *)
Definition applied (i : invocation) : bool :=
  is_set_call (inv_arguments i) && String.eqb (inv_error i) "".

Definition success (m : message) : Prop := m.1 = "success".

(** How many pieces [get_status] reads from the output of a query. *)
Definition needed (arguments : list value) : nat :=
  if is_call "get-kite" arguments then 2 else 1.

(** The dictionary [get_status] builds from the five values it reads, in
    the order of its assignments. *)
Definition status_dict (e : bool) (name secret : string) (h sh : bool) : dict :=
  <["ssh_enabled" := VBool sh]> (<["http_enabled" := VBool h]>
  (<["service" := VDict ∅]> (<["kite_secret" := VStr secret]>
  (<["kite_name" := VStr name]> (<["enabled" := VBool e]> ∅))))).

(** The keys of the dictionary [get_status] returns. *)
Definition status_keys : list string :=
  ["enabled"; "kite_name"; "kite_secret"; "service"; "http_enabled"; "ssh_enabled"].

(** ** Runs without errors of the tool *)

Section ErrorFree.
Context {E : Externals}.
Variables old_status new_status messages : loc.
Variables old new : dict.

(** The three arguments of [_apply_changes] point to two dictionaries and
    a list. *)
Definition ready (s : state) : Prop :=
  st_heap s !! old_status = Some (ODict old) ∧
  st_heap s !! new_status = Some (ODict new) ∧
  ∃ ms, st_heap s !! messages = Some (OList ms).

Definition messages_at (s : state) : list message :=
  match st_heap s !! messages with
  | Some (OList ms) => ms
  | _ => []
  end.

(** What a computation does from a ready state, against the calls [cs] and
    the message entries [add] planned for it.  Either no invocation reports an
    error: then it returns [a], the calls made are [cs] and the store changes
    only by [add] being appended to the messages.  Or an invocation reports
    an error: then it raises, and the calls made are an initial part of
    [cs]. *)
Definition yields {A} (m : M A) (a : A) (cs : list (list value))
    (add : list message) : Prop :=
  ∀ s, ready s → ∃ inv,
    st_trace (m s).2 = st_trace s ++ inv ∧
    ((quiet inv ∧ (m s).1 = Ok a ∧ inv_arguments <$> inv = cs ∧
      st_heap (m s).2 = <[messages := OList (messages_at s ++ add)]> (st_heap s))
     ∨
     (¬ quiet inv ∧ (∃ e, (m s).1 = Raise e) ∧
      (inv_arguments <$> inv) `prefix_of` cs)).

End ErrorFree.

(** ** Effects on the store *)

Section Appending.
Context {E : Externals}.
Variable messages : loc.

(** Started with a list at [messages], the computation changes the store
    only by appending success entries to that list, one for every applied
    change. *)
Definition appends {A} (m : M A) : Prop :=
  ∀ s ms, st_heap s !! messages = Some (OList ms) →
    ∃ new add,
      st_trace (m s).2 = st_trace s ++ new ∧
      st_heap (m s).2 = <[messages := OList (ms ++ add)]> (st_heap s) ∧
      Forall success add ∧
      length add = length (List.filter applied new).

End Appending.

(** ** Example inputs *)

(** [t.format(service=s)] for a template whose only replacement field is
    [{service}]: every occurrence of the field is replaced by [s].  [skip]
    counts the characters of a field still to be dropped. *)
Fixpoint replace_service (skip : nat) (t : string) (s : string) : string :=
  match t with
  | EmptyString => EmptyString
  | String c t' =>
      match skip with
      | S k => replace_service k t' s
      | 0 =>
          if String.prefix "{service}" t
          then s +:+ replace_service 8 t' s
          else String c (replace_service 0 t' s)
      end
  end.

(** A stateless tool whose answers are given by a table, with empty output
    and empty error for every other call; no translation catalogue is
    installed, so [gettext] returns its argument. *)
Fixpoint lookup_answer (table : list (list value * (string * string)))
    (arguments : list value) : string * string :=
  match table with
  | [] => ("", "")
  | (a, r) :: table' =>
      if decide (a = arguments) then r else lookup_answer table' arguments
  end.

Definition tool (table : list (list value * (string * string))) : Externals := {|
  World := unit;
  superuser_run := λ _ arguments w, (lookup_answer table arguments, w);
  run := λ _ arguments w, (lookup_answer table arguments, w);
  gettext := λ s, s;
  format_service := replace_service 0;
|}.

(** A tool that reports an installed, enabled PageKite. *)
Definition answers : list (list value * (string * string)) :=
  [ ([VStr "get-installed"], ("installed", ""));
    ([VStr "get-status"], ("enabled", ""));
    ([VStr "get-kite"], ("  box.pagekite.me   s3cret ", ""));
    ([VStr "get-service-status"; VStr "http"], ("enabled", ""));
    ([VStr "get-service-status"; VStr "ssh"], ("disabled", "")) ].

(** The dictionary [get_status] builds from these answers. *)
Definition current : dict :=
  status_dict true "box.pagekite.me" "s3cret" true false.

(** The cleaned data of a form posted back without any change: the form's
    six fields, [server] being empty. *)
Definition unchanged_form : dict :=
  <["ssh_enabled" := VBool false]> (<["http_enabled" := VBool true]>
  (<["kite_secret" := VStr "s3cret"]> (<["kite_name" := VStr "box.pagekite.me"]>
  (<["server" := VStr ""]> (<["enabled" := VBool true]> ∅))))).

(** The cleaned data of a form that disables PageKite, changes the secret
    and the two services. *)
Definition changed_form : dict :=
  <["ssh_enabled" := VBool true]> (<["http_enabled" := VBool false]>
  (<["kite_secret" := VStr "other"]> (<["kite_name" := VStr "box.pagekite.me"]>
  (<["server" := VStr ""]> (<["enabled" := VBool false]> ∅))))).

(** A store holding an old status at 1, a new status at 2 and an empty
    messages list at 3. *)
Definition store (old new : dict) : gmap loc obj :=
  <[1 := ODict old]> (<[2 := ODict new]>
  (<[3 := OList []]> ∅)).

Definition start_state (table : list (list value * (string * string)))
    (heap : gmap loc obj) : @state (tool table) :=
  @State (tool table) () [] heap.

(** A tool that refuses the new kite secret. *)
Definition refusing : list (list value * (string * string)) :=
  [ ([VStr "set-kite"; VStr "--kite-name"; VStr "box.pagekite.me";
      VStr "--kite-secret"; VStr "other"], ("", "bad secret")) ].

(** The status read from [current] and from [changed_form]. *)
Definition current_status : status :=
  Status true "box.pagekite.me" "s3cret" true false.
Definition changed_status : status :=
  Status false "box.pagekite.me" "other" false true.

(** ** The view [configure]

    [request.method] is a string.  Django's form machinery is not part of the
    module: for the data posted with a request, [is_valid] tells whether
    [ConfigureForm(request.POST, prefix='pagekite').is_valid()] holds and
    [cleaned_data] is the form's [cleaned_data] then.  The decorator
    [login_required] and the rendering of the template are left out; the view
    returns the context it hands to [TemplateResponse]. *)

(** The names of the fields [ConfigureForm] declares, the keys of its
    [cleaned_data]. *)
Definition form_fields : list string :=
  ["enabled"; "server"; "kite_name"; "kite_secret"; "http_enabled"; "ssh_enabled"].

Section Configure.
Context {E : Externals}.
Variable post : Type.
Variable is_valid : post → bool.
Variable cleaned_data : post → dict.

(** [ConfigureForm(request.POST, ...)] and [ConfigureForm(initial=status, ...)]. *)
Inductive form :=
  | Bound (data : post)
  | Unbound (initial : option dict).

(** The context of the response. *)
Record response := Response {
  title : string;
  form_ : form;
  messages_ : list message;
}.

(** A new object of the store. *)
Definition alloc (o : obj) : M loc := λ s,
  let l := fresh (dom (st_heap s)) in
  (Ok l,
   {| st_world := st_world s;
      st_trace := st_trace s;
      st_heap := <[l := o]> (st_heap s) |}).

(** The reference held by a variable bound to [status]: a new dictionary
    of the store, or, for [None], a location at which the store holds no
    object. *)
Definition reference (status : option dict) : M loc :=
  match status with
  | Some d => alloc (ODict d)
  | None => λ s, (Ok (fresh (dom (st_heap s))), s)
  end.

(** The entries of the list at [l], as the template reads them. *)
Definition entries (l : loc) : M (list message) := λ s,
  match st_heap s !! l with
  | Some (OList xs) => (Ok xs, s)
  | _ => (Raise TypeError, s)
  end.

(** [configure(request)] *)
Definition configure (method : string) (data : post) : M response :=
  status ← get_status;
  messages ← alloc (OList []);
  form ←
    (if bool_decide (method = "POST") then
       if is_valid data then
         new_status ← alloc (ODict (cleaned_data data));
         old_status ← reference status;
         _apply_changes old_status new_status messages;;
         status ← get_status;
         mret (Unbound status)
       else mret (Bound data)
     else mret (Unbound status));
  shown ← entries messages;
  mret (Response (gettext "Configure PageKite") form shown).

End Configure.

(** ** [TrimmedCharField.clean]

    A text is a list of characters; [space] is the set of characters
    [strip()] removes; [super_clean] is the [clean] of [forms.CharField]. *)

Section Trimmed.
Variable char : Type.
Variable space : char → bool.
Variable R : Type.
Variable super_clean : option (list char) → R.

Fixpoint lstrip (s : list char) : list char :=
  match s with
  | [] => []
  | c :: s' => if space c then lstrip s' else s
  end.

Definition rstrip (s : list char) : list char := reverse (lstrip (reverse s)).

(** [value.strip()] *)
Definition strip (s : list char) : list char := rstrip (lstrip s).

(** [TrimmedCharField.clean(self, value)]; [if value:] holds for a text
    that is not empty, and not for [None]. *)
Definition clean (value : option (list char)) : R :=
  let value :=
    match value with
    | Some ((_ :: _) as v) => Some (strip v)
    | _ => value
    end in
  super_clean value.

(** A text of white space only. *)
Definition blank (s : list char) : bool := forallb space s.

(** A text that neither begins nor ends with white space. *)
Definition trimmed (s : list char) : bool :=
  match head s with Some c => negb (space c) | None => true end &&
  match last s with Some c => negb (space c) | None => true end.

End Trimmed.

(** ** Further readings of the model *)

(** The five queries of [get_status], in the order it makes them. *)
Definition queries : list (list value) :=
  [ [VStr "get-installed"]; [VStr "get-status"]; [VStr "get-kite"];
    [VStr "get-service-status"; VStr "http"];
    [VStr "get-service-status"; VStr "ssh"] ].


(** A tool that reports that PageKite is not installed. *)
Definition not_installed : list (list value * (string * string)) :=
  [ ([VStr "get-installed"], ("not installed", "")) ].

(** A tool that reports PageKite installed and fails to report whether it
    is enabled. *)
Definition failing : list (list value * (string * string)) :=
  [ ([VStr "get-installed"], ("installed", ""));
    ([VStr "get-status"], ("", "no answer")) ].

(** A store holding a new status at 2 and an empty messages list at 3, and
    nothing at 1. *)
Definition store_without_old (new : dict) : gmap loc obj :=
  <[2 := ODict new]> (<[3 := OList []]> ∅).

(** A text with white space around it, and between its words. *)
Definition padded : list ascii := list_ascii_of_string "  my box  ".

(** The five fields [_apply_changes] compares. *)
Definition status_fields : list string :=
  ["enabled"; "kite_name"; "kite_secret"; "http_enabled"; "ssh_enabled"].

(** A tool that keeps the configuration it is given: its world is the
    status of the service, which the set-* calls change and the queries
    report; it never reports an error. *)
Definition on_off (b : bool) : string := if b then "enabled" else "disabled".

Definition device_run (arguments : list value) (w : status)
    : (string * string) * status :=
  match arguments with
  | [VStr c] =>
      if decide (c = "get-installed") then (("installed", ""), w)
      else if decide (c = "get-status") then ((on_off (enabled w), ""), w)
      else if decide (c = "get-kite")
      then ((kite_name w +:+ " " +:+ kite_secret w, ""), w)
      else (("", ""), w)
  | [VStr c; VStr a] =>
      if decide (c = "get-service-status")
      then ((on_off (if decide (a = "http") then http_enabled w
                     else ssh_enabled w), ""), w)
      else if decide (c = "set-status")
      then (("", ""),
            Status (bool_decide (a = "enable")) (kite_name w) (kite_secret w)
              (http_enabled w) (ssh_enabled w))
      else (("", ""), w)
  | [VStr c; VStr service; VStr a] =>
      if decide (c = "set-service-status")
      then (("", ""),
            if decide (service = "http")
            then Status (enabled w) (kite_name w) (kite_secret w)
                   (bool_decide (a = "enable")) (ssh_enabled w)
            else Status (enabled w) (kite_name w) (kite_secret w)
                   (http_enabled w) (bool_decide (a = "enable")))
      else (("", ""), w)
  | [VStr c; _; VStr name; _; VStr secret] =>
      if decide (c = "set-kite")
      then (("", ""),
            Status (enabled w) name secret (http_enabled w) (ssh_enabled w))
      else (("", ""), w)
  | _ => (("", ""), w)
  end.

Definition device : Externals := {|
  World := status;
  superuser_run := λ _ arguments w, device_run arguments w;
  run := λ _ arguments w, device_run arguments w;
  gettext := λ s, s;
  format_service := replace_service 0;
|}.

(** The device configured as [current_status], nothing called yet and an
    empty store. *)
Definition device_state : @state device := @State device current_status [] ∅.

(** ** [_run] *)

Section RunFacts.
Context {E : Externals}.

Lemma bind_ok {A B} (m : M A) (k : A → M B) s a s' :
  m s = (Ok a, s') → (m ≫= k) s = k a s'.
Proof. unfold mbind, M_bind. by intros ->. Qed.

Lemma bind_raise {A B} (m : M A) (k : A → M B) s e s' :
  m s = (Raise e, s') → (m ≫= k) s = (Raise e, s').
Proof. unfold mbind, M_bind. by intros ->. Qed.

Lemma after_run_trace arguments superuser s :
  st_trace (after_run arguments superuser s) =
  st_trace s ++ [Invocation superuser command arguments
                   (answer superuser arguments s).1
                   (answer superuser arguments s).2].
Proof.
  unfold after_run, invoke, answer.
  by destruct ((if superuser then superuser_run else run) _ _ _) as [[??]?].
Qed.

Lemma after_run_heap arguments superuser s :
  st_heap (after_run arguments superuser s) = st_heap s.
Proof.
  unfold after_run, invoke.
  by destruct ((if superuser then superuser_run else run) _ _ _) as [[??]?].
Qed.

Lemma _run_eq arguments superuser s :
  _run arguments superuser s =
  (if bool_decide ((answer superuser arguments s).2 ≠ "")
   then Raise (Exception ("Error setting/getting PageKite confguration - "
                          +:+ (answer superuser arguments s).2))
   else Ok (answer superuser arguments s).1,
   after_run arguments superuser s).
Proof.
  unfold _run, after_run, answer, mbind, M_bind, invoke.
  destruct ((if superuser then superuser_run else run) _ _ _) as [[out err] w].
  simpl. by case_bool_decide.
Qed.

Lemma run_bind_eq {B} arguments superuser (k : string → M B) s :
  (_run arguments superuser ≫= k) s =
  if bool_decide ((answer superuser arguments s).2 ≠ "")
  then (Raise (Exception ("Error setting/getting PageKite confguration - "
                          +:+ (answer superuser arguments s).2)),
        after_run arguments superuser s)
  else k (answer superuser arguments s).1 (after_run arguments superuser s).
Proof.
  unfold mbind, M_bind. rewrite _run_eq. by case_bool_decide.
Qed.

Lemma index_bind_eq {A B} (xs : list A) i (k : A → M B) s :
  (index xs i ≫= k) s =
  match xs !! i with
  | Some x => k x s
  | None => (Raise IndexError, s)
  end.
Proof. unfold index. by destruct (xs !! i). Qed.

Lemma ret_bind_eq {A B} (a : A) (k : A → M B) s : (mret a ≫= k) s = k a s.
Proof. done. Qed.

Lemma bind_assoc_eq {A B C} (m : M A) (k1 : A → M B) (k2 : B → M C) s :
  ((m ≫= k1) ≫= k2) s = (m ≫= λ a, k1 a ≫= k2) s.
Proof. unfold mbind, M_bind. by destruct (m s) as [[a|e] s']. Qed.

Lemma ret_eq {A} (a : A) s : (mret a : M A) s = (Ok a, s).
Proof. done. Qed.

(** C5: [_run] hands the arguments to the tool once; when the tool's error
    output is empty the result is the tool's standard output, unchanged, and
    no exception is raised; when it is not empty the result is the generic
    [Exception] carrying that error output. *)
Theorem run_raises_iff_error arguments superuser s :
  let '(output, error) := answer superuser arguments s in
  (_run arguments superuser s).1 =
    (if bool_decide (error = "") then Ok output
     else Raise (Exception ("Error setting/getting PageKite confguration - "
                            +:+ error)))
  ∧ calls (_run arguments superuser s).2 = calls s ++ [arguments].
Proof.
  rewrite _run_eq. cbn [fst snd]. unfold calls. rewrite after_run_trace.
  destruct (answer superuser arguments s) as [output error]. cbn [fst snd].
  split; [by repeat case_bool_decide | by rewrite fmap_app].
Qed.

End RunFacts.

(** ** An error of the tool ends the run *)

Section FailFast.
Context {E : Externals}.

Lemma ff_silent {A} (m : M A) :
  (∀ s, st_trace (m s).2 = st_trace s) → fails_fast m.
Proof.
  intros H s. exists []. rewrite H, app_nil_r. split; [done|]. left. constructor.
Qed.

Lemma ff_ret {A} (a : A) : fails_fast (mret a).
Proof. by apply ff_silent. Qed.

Lemma ff_raise {A} e : fails_fast (raise (A:=A) e).
Proof. by apply ff_silent. Qed.

Lemma ff_getitem l key : fails_fast (getitem l key).
Proof.
  apply ff_silent. intros s. unfold getitem.
  destruct (st_heap s !! l) as [[d|?]|]; [|done..]. by destruct (d !! key).
Qed.

Lemma ff_ne l1 l2 : fails_fast (ne l1 l2).
Proof. by apply ff_silent. Qed.

Lemma ff_append l x : fails_fast (append l x).
Proof.
  apply ff_silent. intros s. unfold append.
  by destruct (st_heap s !! l) as [[?|?]|].
Qed.

Lemma ff_index {A} (xs : list A) i : fails_fast (index xs i).
Proof. unfold index. destruct (xs !! i); [apply ff_ret | apply ff_raise]. Qed.

Lemma ff_run arguments superuser : fails_fast (_run arguments superuser).
Proof.
  intros s. rewrite _run_eq. cbn [fst snd]. rewrite after_run_trace.
  eexists. split; [done|].
  case_bool_decide as Herr.
  - right. eexists [], _. split; [done|]. split; [constructor|]. by split.
  - left. apply Forall_singleton. by cbn.
Qed.

Lemma ff_bind {A B} (m : M A) (k : A → M B) :
  fails_fast m → (∀ a, fails_fast (k a)) → fails_fast (m ≫= k).
Proof.
  intros Hm Hk s. destruct (Hm s) as (new1 & Htr1 & H1).
  destruct (m s) as [[a|e] s1] eqn:Hms; cbn [fst snd] in *.
  - rewrite (bind_ok _ _ _ _ _ Hms).
    destruct (Hk a s1) as (new2 & Htr2 & H2).
    exists (new1 ++ new2). rewrite Htr2, Htr1, app_assoc. split; [done|].
    destruct H1 as [Hq1|(? & ? & _ & _ & _ & ?)]; [|done].
    destruct H2 as [Hq2|(pre & i & -> & Hq2 & Hi & Hr)].
    + left. by apply Forall_app.
    + right. exists (new1 ++ pre), i. rewrite app_assoc.
      split; [done|]. split; [by apply Forall_app|]. by split.
  - rewrite (bind_raise _ _ _ _ _ Hms). cbn [fst snd]. exists new1.
    split; [done|].
    destruct H1 as [?|(pre & i & ? & ? & ? & [= ->])]; [by left|].
    right. by exists pre, i.
Qed.

Lemma ff_when {A} c (m : M A) : fails_fast m → fails_fast (when c m).
Proof.
  intros Hm. unfold when. destruct c; [|apply ff_ret].
  apply ff_bind; [done|]. intros _. apply ff_ret.
Qed.

Lemma ff_for {A} (xs : list A) body :
  (∀ x, fails_fast (body x)) → fails_fast (for_ xs body).
Proof.
  intros Hb. induction xs as [|x xs IH]; [apply ff_ret|].
  apply ff_bind; [apply Hb | by intros _].
Qed.

Lemma ff_for_fold {A S} (xs : list A) (acc : S) body :
  (∀ x a, fails_fast (body x a)) → fails_fast (for_fold xs acc body).
Proof.
  intros Hb. revert acc. induction xs as [|x xs IH]; intros acc; [apply ff_ret|].
  apply ff_bind; [apply Hb | done].
Qed.

End FailFast.

Ltac ff_step :=
  first
    [ apply ff_ret | apply ff_raise | apply ff_run | apply ff_getitem
    | apply ff_ne | apply ff_append | apply ff_index
    | apply ff_when | apply ff_for; intros ?
    | apply ff_for_fold; intros ? ?
    | apply ff_bind; [|intros ?]
    | match goal with |- fails_fast (if ?c then _ else _) => destruct c end ].

Lemma _apply_changes_fails_fast {E : Externals} old_status new_status messages :
  fails_fast (_apply_changes old_status new_status messages).
Proof. unfold _apply_changes. repeat ff_step. Qed.

Lemma get_status_fails_fast {E : Externals} : fails_fast get_status.
Proof. unfold get_status. repeat ff_step. Qed.

Lemma fails_fast_made {E : Externals} {A} (m : M A) s :
  fails_fast m → st_trace (m s).2 = st_trace s ++ made m s.
Proof.
  intros Hm. destruct (Hm s) as (new & Htr & _).
  unfold made. by rewrite Htr, drop_app_length.
Qed.

(** Where an error can sit in the invocations a fail-fast computation made. *)
Lemma fails_fast_last {E : Externals} {A} (m : M A) s pre i post :
  fails_fast m →
  st_trace (m s).2 = st_trace s ++ pre ++ i :: post →
  inv_error i ≠ "" →
  post = [] ∧ quiet pre ∧ (m s).1 = Raise (Exception (error_text (inv_error i))).
Proof.
  intros Hm Htr Hi. destruct (Hm s) as (new & Htr' & H).
  rewrite Htr in Htr'. apply app_inv_head in Htr'. subst new.
  destruct H as [Hq|(pre' & i' & Heq & Hq & Hi' & Hr)].
  - apply Forall_app in Hq as [_ Hq]. by inversion Hq.
  - destruct post as [|j post _] using rev_ind.
    + apply app_inj_tail in Heq as [-> ->]. done.
    + rewrite app_comm_cons, app_assoc in Heq.
      apply app_inj_tail in Heq as [<- _].
      apply Forall_app in Hq as [_ Hq]. by inversion Hq.
Qed.

(** ** Runs without errors: the calls and the messages *)

Lemma status_of_Some d o :
  status_of d = Some o →
  d !! "enabled" = Some (VBool (enabled o)) ∧
  d !! "kite_name" = Some (VStr (kite_name o)) ∧
  d !! "kite_secret" = Some (VStr (kite_secret o)) ∧
  d !! "http_enabled" = Some (VBool (http_enabled o)) ∧
  d !! "ssh_enabled" = Some (VBool (ssh_enabled o)).
Proof.
  unfold status_of. intros H.
  destruct (d !! "enabled") as [[]|]; try done.
  destruct (d !! "kite_name") as [[]|]; try done.
  destruct (d !! "kite_secret") as [[]|]; try done.
  destruct (d !! "http_enabled") as [[]|]; try done.
  destruct (d !! "ssh_enabled") as [[]|]; try done.
  by injection H as <-.
Qed.

Lemma VBool_ne a b : bool_decide (VBool a ≠ VBool b) = bool_decide (a ≠ b).
Proof. apply bool_decide_ext. split; [congruence|]. by intros ? [= ?]. Qed.

Lemma VStr_ne a b : bool_decide (VStr a ≠ VStr b) = bool_decide (a ≠ b).
Proof. apply bool_decide_ext. split; [congruence|]. by intros ? [= ?]. Qed.

Lemma either_differs (P Q : Prop) `{Decision P, Decision Q} :
  (if bool_decide P then true else bool_decide Q) = bool_decide (P ∨ Q).
Proof. repeat case_bool_decide; tauto. Qed.

Lemma if_same {A} (c : bool) (x : A) : (if c then x else x) = x.
Proof. by destruct c. Qed.

Section Quiet.
Context {E : Externals}.
Variables old_status new_status messages : loc.
Variables old new : dict.

Local Abbreviation ready := (ready old_status new_status messages old new).
Local Abbreviation messages_at := (messages_at messages).
Local Abbreviation yields := (yields old_status new_status messages old new).

Lemma ready_distinct s :
  ready s → old_status ≠ messages ∧ new_status ≠ messages.
Proof. intros (Ho & Hn & ms & Hm). split; intros ->; congruence. Qed.

Lemma ready_same_heap s s' : ready s → st_heap s' = st_heap s → ready s'.
Proof. unfold ready. by intros ? ->. Qed.

Lemma ready_appended s s' add :
  ready s →
  st_heap s' = <[messages := OList (messages_at s ++ add)]> (st_heap s) →
  ready s' ∧ messages_at s' = messages_at s ++ add.
Proof.
  intros Hr Hh. destruct (ready_distinct s Hr) as [? ?].
  destruct Hr as (Ho & Hn & ms & Hm). unfold ready, messages_at. rewrite Hh.
  rewrite !lookup_insert_ne, lookup_insert_eq by done. eauto.
Qed.

Lemma unchanged_heap s :
  ready s → st_heap s = <[messages := OList (messages_at s ++ [])]> (st_heap s).
Proof.
  intros (_ & _ & ms & Hm). unfold messages_at.
  by rewrite Hm, app_nil_r, insert_id.
Qed.

(** A computation that makes no call and changes nothing. *)
Lemma yields_silent {A} (m : M A) a :
  (∀ s, ready s → m s = (Ok a, s)) → yields m a [] [].
Proof.
  intros H s Hr. exists []. rewrite (H s Hr), app_nil_r. split; [done|]. left.
  split; [constructor|]. split; [done|]. split; [done|]. by apply unchanged_heap.
Qed.

Lemma yields_ret {A} (a : A) : yields (mret a) a [] [].
Proof. by apply yields_silent. Qed.

Lemma yields_getitem_old key v :
  old !! key = Some v → yields (getitem old_status key) v [] [].
Proof.
  intros Hk. apply yields_silent. intros s (Ho & _).
  unfold getitem. by rewrite Ho, Hk.
Qed.

Lemma yields_getitem_new key v :
  new !! key = Some v → yields (getitem new_status key) v [] [].
Proof.
  intros Hk. apply yields_silent. intros s (_ & Hn & _).
  unfold getitem. by rewrite Hn, Hk.
Qed.

Lemma yields_ne :
  yields (ne old_status new_status) (bool_decide (old ≠ new)) [] [].
Proof.
  apply yields_silent. intros s (Ho & Hn & _). unfold ne. rewrite Ho, Hn.
  do 2 f_equal. apply bool_decide_ext. split; [congruence|].
  intros H [= ?]. done.
Qed.

Lemma yields_append x : yields (append messages x) () [] [x].
Proof.
  intros s Hr. pose proof Hr as (_ & _ & ms & Hm). exists [].
  unfold append, messages_at. rewrite Hm. cbn [fst snd st_trace st_heap].
  rewrite app_nil_r. split; [done|]. left. split; [constructor|]. done.
Qed.

Lemma yields_bind {A B} (m : M A) (k : A → M B) a b cs1 add1 cs2 add2 :
  yields m a cs1 add1 → yields (k a) b cs2 add2 →
  yields (m ≫= k) b (cs1 ++ cs2) (add1 ++ add2).
Proof.
  intros Hm Hk s Hr. destruct (Hm s Hr) as (inv1 & Htr1 & H1).
  destruct (m s) as [r s1] eqn:Hrun. cbn [fst snd] in *.
  destruct H1 as [(Hq1 & -> & Hcs1 & Hh1)|(Hq1 & (e & ->) & Hpre)].
  - destruct (ready_appended s s1 add1 Hr Hh1) as [Hr1 Hms1].
    destruct (Hk s1 Hr1) as (inv2 & Htr2 & H2).
    rewrite (bind_ok _ _ _ _ _ Hrun). exists (inv1 ++ inv2).
    rewrite Htr2, Htr1, app_assoc. split; [done|].
    destruct H2 as [(Hq2 & Hres & Hcs2 & Hh2)|(Hq2 & Hres & Hpre)].
    + left. split; [by apply Forall_app|]. split; [done|].
      split; [by rewrite fmap_app, Hcs1, Hcs2|].
      by rewrite Hh2, Hms1, Hh1, insert_insert_eq, app_assoc.
    + right. split; [intros [_ ?]%Forall_app; done|]. split; [done|].
      rewrite fmap_app, Hcs1. by apply prefix_app.
  - rewrite (bind_raise _ _ _ _ _ Hrun). exists inv1. split; [done|]. right.
    split; [done|]. split; [by exists e|]. by apply prefix_app_r.
Qed.

Lemma yields_if {A} (c : bool) (m1 m2 : M A) a1 a2 cs1 cs2 add1 add2 :
  yields m1 a1 cs1 add1 → yields m2 a2 cs2 add2 →
  yields (if c then m1 else m2) (if c then a1 else a2)
         (if c then cs1 else cs2) (if c then add1 else add2).
Proof. by destruct c. Qed.

Lemma yields_if_unit (c : bool) (m1 m2 : M unit) cs1 cs2 add1 add2 :
  yields m1 () cs1 add1 → yields m2 () cs2 add2 →
  yields (if c then m1 else m2) ()
         (if c then cs1 else cs2) (if c then add1 else add2).
Proof. by destruct c. Qed.

Lemma yields_when {A} (c : bool) (m : M A) a cs add :
  yields m a cs add →
  yields (when c m) () (if c then cs else []) (if c then add else []).
Proof.
  intros Hm. unfold when. destruct c; [|apply yields_ret].
  rewrite <-(app_nil_r cs), <-(app_nil_r add).
  eapply yields_bind; [done | apply yields_ret].
Qed.

(** A call of [_run], followed by the rest of the computation. *)
Lemma yields_run_then {B} arguments superuser (k : string → M B) b cs add :
  (∀ out, yields (k out) b cs add) →
  yields (_run arguments superuser ≫= k) b (arguments :: cs) add.
Proof.
  intros Hk s Hr. rewrite run_bind_eq.
  set (s1 := after_run arguments superuser s).
  set (i := Invocation superuser command arguments
              (answer superuser arguments s).1 (answer superuser arguments s).2).
  assert (st_trace s1 = st_trace s ++ [i]) as Htr1 by apply after_run_trace.
  assert (st_heap s1 = st_heap s) as Hh1 by apply after_run_heap.
  case_bool_decide as Herr.
  - exists [i]. split; [done|]. right.
    split; [intros Hq; inversion Hq as [|?? Hi _]; exact (Herr Hi)|].
    split; [by eexists|]. apply prefix_cons, prefix_nil.
  - destruct (Hk (answer superuser arguments s).1 s1) as (inv & Htr & H);
      [by eapply ready_same_heap|].
    exists (i :: inv). rewrite Htr, Htr1, <-app_assoc. split; [done|].
    destruct H as [(Hq & Hres & Hcs & Hh)|(Hq & Hres & Hpre)].
    + left. split; [apply List.Forall_cons; [exact Herr | exact Hq]|].
      split; [done|].
      split; [by rewrite fmap_cons, Hcs|].
      rewrite Hh, Hh1. unfold messages_at. by rewrite Hh1.
    + right. split; [by intros [_ ?]%Forall_cons|]. split; [done|].
      rewrite fmap_cons. by apply prefix_cons.
Qed.

Lemma yields_when_run (c : bool) arguments superuser :
  yields (when c (_run arguments superuser)) ()
         (if c then [arguments] else []) [].
Proof.
  unfold when. destruct c; [|apply yields_ret].
  apply yields_run_then. intros _. apply yields_ret.
Qed.

End Quiet.

Section Plan.
Context {E : Externals}.
Variables old_status new_status messages : loc.
Variables old new : dict.
Variables o n : status.
Hypothesis Hold : status_of old = Some o.
Hypothesis Hnew : status_of new = Some n.

Local Abbreviation yields := (yields old_status new_status messages old new).
Local Abbreviation expected_messages := (expected_messages o n).

Lemma yields_eq {A} (m : M A) a cs cs' add add' :
  yields m a cs' add' → cs' = cs → add' = add → yields m a cs add.
Proof. by intros ? <- <-. Qed.

Ltac ystep :=
  cbv beta;
  first
    [ apply yields_ret
    | apply yields_ne
    | apply yields_append
    | apply yields_when_run
    | apply yields_getitem_old; apply (status_of_Some _ _ Hold)
    | apply yields_getitem_new; apply (status_of_Some _ _ Hnew)
    | apply yields_run_then; intros _
    | eapply yields_when
    | eapply yields_if_unit
    | eapply yields_if
    | eapply yields_bind ].

Lemma _apply_changes_yields :
  yields (_apply_changes old_status new_status messages) ()
         (expected_calls (bool_decide (old ≠ new)) o n) expected_messages.
Proof.
  unfold _apply_changes. cbn [for_].
  eapply yields_eq.
  - repeat ystep.
  - unfold expected_calls. rewrite !VBool_ne, !VStr_ne, either_differs.
    cbn [truthy app]. rewrite ?app_nil_r, ?if_same, <-?app_assoc.
    by destruct (enabled n), (http_enabled n), (ssh_enabled n).
  - unfold expected_messages. rewrite !VBool_ne, !VStr_ne, either_differs.
    cbn [truthy app]. rewrite ?app_nil_r, ?if_same, <-?app_assoc.
    by destruct (enabled n), (http_enabled n), (ssh_enabled n).
Qed.

End Plan.

Section Emitted.
Context {E : Externals}.
Variables old_status new_status messages : loc.
Variables (old new : dict) (ms : list message) (o n : status).
Variable s : state.
Hypothesis Hold_at : st_heap s !! old_status = Some (ODict old).
Hypothesis Hnew_at : st_heap s !! new_status = Some (ODict new).
Hypothesis Hmessages_at : st_heap s !! messages = Some (OList ms).
Hypothesis Hold : status_of old = Some o.
Hypothesis Hnew : status_of new = Some n.

(** Whatever the tool answers, the calls made are an initial part of the
    expected calls. *)
Lemma _apply_changes_emitted_prefix :
  emitted (_apply_changes old_status new_status messages) s
  `prefix_of` expected_calls (bool_decide (old ≠ new)) o n.
Proof.
  destruct (_apply_changes_yields old_status new_status messages old new o n
              Hold Hnew s) as (inv & Htr & H).
  { split; [done|]. split; [done|]. by exists ms. }
  unfold emitted, calls. rewrite Htr, fmap_app.
  rewrite <-(length_fmap inv_arguments), drop_app_length.
  destruct H as [(_ & _ & -> & _)|(_ & _ & Hpre)]; done.
Qed.

Hypothesis Hquiet : quiet (made (_apply_changes old_status new_status messages) s).

Lemma _apply_changes_quiet :
  ∃ s', _apply_changes old_status new_status messages s = (Ok (), s') ∧
        calls s' = calls s ++ expected_calls (bool_decide (old ≠ new)) o n ∧
        st_heap s' = <[messages := OList (ms ++ expected_messages o n)]> (st_heap s).
Proof.
  destruct (_apply_changes_yields old_status new_status messages old new o n
              Hold Hnew s) as (inv & Htr & H).
  { split; [done|]. split; [done|]. by exists ms. }
  unfold made in Hquiet. rewrite Htr, drop_app_length in Hquiet.
  destruct H as [(_ & Hres & Hcs & Hh)|(Hq & _)]; [|done].
  destruct (_apply_changes _ _ _ s) as [r s'] eqn:Hrun. cbn [fst snd] in *.
  exists s'. split; [by rewrite Hres|]. split.
  - unfold calls. by rewrite Htr, fmap_app, Hcs.
  - rewrite Hh. unfold messages_at. by rewrite Hmessages_at.
Qed.

Lemma _apply_changes_emitted :
  emitted (_apply_changes old_status new_status messages) s =
  expected_calls (bool_decide (old ≠ new)) o n.
Proof.
  destruct _apply_changes_quiet as (s' & Hrun & Hcalls & _).
  unfold emitted. rewrite Hrun. cbn [snd]. rewrite Hcalls.
  unfold calls. rewrite <-(length_fmap inv_arguments). apply drop_app_length.
Qed.

End Emitted.

(** ** The calls [_apply_changes] makes when no invocation reports an error *)

Lemma elem_of_if_singleton {A} (c : bool) (x y : A) :
  x ∈ (if c then [y] else []) ↔ c = true ∧ x = y.
Proof.
  destruct c.
  - rewrite list_elem_of_singleton. tauto.
  - rewrite elem_of_nil. split; [done|]. by intros [? _].
Qed.

Lemma expected_calls_stop differ o n :
  [VStr "stop"] ∈ expected_calls differ o n ↔ differ = true.
Proof.
  unfold expected_calls. rewrite !elem_of_app, !elem_of_if_singleton.
  split; [|by left].
  intros [[? _]|[[_ [=]]|[[_ [=]]|[[_ [=]]|[[_ [=]]|[_ [=]]]]]]]. done.
Qed.

Lemma expected_calls_start differ o n :
  [VStr "start"] ∈ expected_calls differ o n ↔ differ = true.
Proof.
  unfold expected_calls. rewrite !elem_of_app, !elem_of_if_singleton.
  split; [|by do 5 right].
  intros [[_ [=]]|[[_ [=]]|[[_ [=]]|[[_ [=]]|[[_ [=]]|[? _]]]]]]. done.
Qed.

Lemma filter_if {A} (f : A → bool) (c : bool) (l1 l2 : list A) :
  List.filter f (if c then l1 else l2) =
  if c then List.filter f l1 else List.filter f l2.
Proof. by destruct c. Qed.

Lemma expected_calls_ordered differ o n :
  Forall (λ c, rank c < 6) (expected_calls differ o n) ∧
  StronglySorted lt (rank <$> expected_calls differ o n).
Proof.
  unfold expected_calls.
  destruct differ; repeat case_bool_decide; cbn;
    (split;
     [ repeat (apply List.Forall_cons; [cbn; lia|]); apply List.Forall_nil
     | repeat (apply SSorted_cons;
               [|repeat (apply List.Forall_cons; [lia|]); apply List.Forall_nil]);
       apply SSorted_nil ]).
Qed.

Section Diff.
Context {E : Externals}.
Variables old_status new_status messages : loc.
Variables (old new : dict) (ms : list message) (o n : status).
Variable s : state.
Hypothesis Hold_at : st_heap s !! old_status = Some (ODict old).
Hypothesis Hnew_at : st_heap s !! new_status = Some (ODict new).
Hypothesis Hmessages_at : st_heap s !! messages = Some (OList ms).
Hypothesis Hold : status_of old = Some o.
Hypothesis Hnew : status_of new = Some n.

(** C4: whatever the tool answers, the calls made are in the order stop,
    set-status, set-kite, set-service-status http, set-service-status ssh,
    start: every call is one of these six, and the places of the calls in
    that order increase strictly along the sequence. *)
Theorem calls_in_fixed_order :
  Forall (λ c, rank c < 6)
    (emitted (_apply_changes old_status new_status messages) s) ∧
  StronglySorted lt
    (rank <$> emitted (_apply_changes old_status new_status messages) s).
Proof.
  destruct (_apply_changes_emitted_prefix old_status new_status messages
              old new ms o n s Hold_at Hnew_at Hmessages_at Hold Hnew)
    as [rest Hrest].
  destruct (expected_calls_ordered (bool_decide (old ≠ new)) o n) as [Hall Hsorted].
  rewrite Hrest in Hall, Hsorted. rewrite fmap_app in Hsorted.
  apply Forall_app in Hall as [Hall _].
  apply StronglySorted_app_1_l in Hsorted. done.
Qed.

Hypothesis Hquiet : quiet (made (_apply_changes old_status new_status messages) s).

Lemma emitted_eq :
  emitted (_apply_changes old_status new_status messages) s =
  expected_calls (bool_decide (old ≠ new)) o n.
Proof. by eapply _apply_changes_emitted. Qed.

(** The guard of [_apply_changes]: in a run in which no invocation reports
    an error, the [stop] call and the [start] call are made exactly when the
    old and the new mapping differ as dictionaries, in any key and not only in
    the five status fields.  A change of one of the five fields makes the
    dictionaries differ; when the dictionaries are equal no call at all is
    made. *)
Theorem stop_start_iff_mappings_differ :
  ([VStr "stop"] ∈ emitted (_apply_changes old_status new_status messages) s
   ↔ old ≠ new) ∧
  ([VStr "start"] ∈ emitted (_apply_changes old_status new_status messages) s
   ↔ old ≠ new) ∧
  (o ≠ n → old ≠ new) ∧
  (old = new → emitted (_apply_changes old_status new_status messages) s = []).
Proof.
  rewrite emitted_eq, expected_calls_stop, expected_calls_start.
  rewrite bool_decide_eq_true. split; [done|]. split; [done|].
  split; [intros Hne ->; congruence|].
  intros ->. assert (o = n) as -> by congruence.
  unfold expected_calls. rewrite bool_decide_eq_false_2 by (by intros ?).
  by rewrite !bool_decide_eq_false_2 by tauto.
Qed.

(** C2: in a run in which no invocation reports an error, the calls made
    contain exactly one [set-status] call, with [enable] when the new
    [enabled] is true and [disable] otherwise, when [enabled] changed, and
    none when it did not; the same holds for [set-service-status http] and
    [http_enabled], and for [set-service-status ssh] and [ssh_enabled]. *)
Theorem one_toggle_call_per_changed_flag :
  List.filter (is_call "set-status")
    (emitted (_apply_changes old_status new_status messages) s) =
    (if bool_decide (enabled o ≠ enabled n)
     then [[VStr "set-status"; VStr (if enabled n then "enable" else "disable")]]
     else []) ∧
  List.filter (is_service_call "http")
    (emitted (_apply_changes old_status new_status messages) s) =
    (if bool_decide (http_enabled o ≠ http_enabled n)
     then [[VStr "set-service-status"; VStr "http";
            VStr (if http_enabled n then "enable" else "disable")]]
     else []) ∧
  List.filter (is_service_call "ssh")
    (emitted (_apply_changes old_status new_status messages) s) =
    (if bool_decide (ssh_enabled o ≠ ssh_enabled n)
     then [[VStr "set-service-status"; VStr "ssh";
            VStr (if ssh_enabled n then "enable" else "disable")]]
     else []).
Proof.
  rewrite emitted_eq. unfold expected_calls.
  rewrite !List.filter_app, !filter_if. cbn. rewrite !if_same. cbn.
  rewrite !app_nil_r.
  by destruct (enabled n), (http_enabled n), (ssh_enabled n).
Qed.

(** C3: in a run in which no invocation reports an error, the calls made
    contain exactly one [set-kite] call, carrying the new kite name and the
    new kite secret, when the name or the secret changed, and none when
    neither did. *)
Theorem one_set_kite_call_iff_name_or_secret_changed :
  List.filter (is_call "set-kite")
    (emitted (_apply_changes old_status new_status messages) s) =
    (if bool_decide (kite_name o ≠ kite_name n ∨ kite_secret o ≠ kite_secret n)
     then [[VStr "set-kite"; VStr "--kite-name"; VStr (kite_name n);
            VStr "--kite-secret"; VStr (kite_secret n)]]
     else []).
Proof.
  rewrite emitted_eq. unfold expected_calls.
  rewrite !List.filter_app, !filter_if. cbn. rewrite !if_same. cbn.
  by rewrite app_nil_r.
Qed.

End Diff.

(** Two mappings that hold the five status fields and no other key are
    equal when the five fields are. *)
Lemma status_fields_eq (old new : dict) o :
  dom old = list_to_set status_fields →
  dom new = list_to_set status_fields →
  status_of old = Some o → status_of new = Some o →
  old = new.
Proof.
  intros Hdo Hdn Ho Hn. apply map_eq. intros k.
  destruct (status_of_Some _ _ Ho) as (? & ? & ? & ? & ?).
  destruct (status_of_Some _ _ Hn) as (? & ? & ? & ? & ?).
  destruct (decide (k ∈ status_fields)) as [Hin|Hout].
  - unfold status_fields in Hin. rewrite !elem_of_cons, elem_of_nil in Hin.
    destruct Hin as [->|[->|[->|[->|[->|[]]]]]]; congruence.
  - assert (k ∉ dom old) as ->%not_elem_of_dom
      by (by rewrite Hdo, elem_of_list_to_set).
    assert (k ∉ dom new) as ->%not_elem_of_dom
      by (by rewrite Hdn, elem_of_list_to_set).
    done.
Qed.

Section Five.
Context {E : Externals}.
Variables old_status new_status messages : loc.
Variables (old new : dict) (ms : list message) (o n : status).
Variable s : state.
Hypothesis Hold_at : st_heap s !! old_status = Some (ODict old).
Hypothesis Hnew_at : st_heap s !! new_status = Some (ODict new).
Hypothesis Hmessages_at : st_heap s !! messages = Some (OList ms).
Hypothesis Hold : status_of old = Some o.
Hypothesis Hnew : status_of new = Some n.
Hypothesis Hquiet : quiet (made (_apply_changes old_status new_status messages) s).

(** On mappings that hold the five status fields and no other key the
    guard does what it is written for: in a run in which no invocation
    reports an error, [stop] and [start] are called exactly when one of the
    five fields differs, and no call at all is made when none does. *)
Lemma stop_start_iff_field_differs :
  dom old = list_to_set status_fields →
  dom new = list_to_set status_fields →
  ([VStr "stop"] ∈ emitted (_apply_changes old_status new_status messages) s
   ↔ o ≠ n) ∧
  ([VStr "start"] ∈ emitted (_apply_changes old_status new_status messages) s
   ↔ o ≠ n) ∧
  (o = n → emitted (_apply_changes old_status new_status messages) s = []).
Proof.
  intros Hdo Hdn.
  assert (old ≠ new ↔ o ≠ n) as Hiff.
  { split.
    - intros Hne ->. apply Hne. by eapply status_fields_eq.
    - intros Hne ->. congruence. }
  rewrite (_apply_changes_emitted old_status new_status messages old new ms o n s)
    by done.
  rewrite expected_calls_stop, expected_calls_start, bool_decide_eq_true.
  split; [done|]. split; [done|].
  intros ->. unfold expected_calls.
  rewrite (bool_decide_eq_false_2 (old ≠ new)) by (rewrite Hiff; by intros ?).
  by rewrite !bool_decide_eq_false_2 by tauto.
Qed.

End Five.

Lemma changed_run_quiet :
  quiet (made (_apply_changes 1 2 3)
           (start_state answers (store current changed_form))).
Proof. vm_compute. repeat constructor. Qed.

Lemma current_ne_changed_form : current ≠ changed_form.
Proof.
  intros H. assert (current !! "enabled" = changed_form !! "enabled") as H'
    by (by rewrite H).
  vm_compute in H'. discriminate H'.
Qed.

(** C1: the code at an input where it departs from the claim.  The form
    is posted back unchanged: none of the five fields differs between the
    status [get_status] returned and the form's data, and no setting is
    applied, yet [stop] and [start] are called.  The guard written to skip
    them compares the whole dictionaries, and the dictionary of [get_status]
    holds the key [service], the form's data the key [server]. *)
Lemma stop_start_without_field_change :
  status_of current = Some current_status ∧
  status_of unchanged_form = Some current_status ∧
  emitted (_apply_changes 1 2 3) (start_state answers (store current unchanged_form))
  = [[VStr "stop"]; [VStr "start"]].
Proof. vm_compute. done. Qed.

Lemma stop_start_iff_mappings_differ_witness :
  [VStr "stop"] ∈
    emitted (_apply_changes 1 2 3) (start_state answers (store current changed_form)) ∧
  [VStr "start"] ∈
    emitted (_apply_changes 1 2 3) (start_state answers (store current changed_form)).
Proof.
  destruct (stop_start_iff_mappings_differ 1 2 3 current changed_form []
              current_status changed_status
              (start_state answers (store current changed_form))
              eq_refl eq_refl eq_refl eq_refl eq_refl changed_run_quiet)
    as (Hstop & Hstart & _).
  split; [apply Hstop | apply Hstart]; exact current_ne_changed_form.
Defined.

Lemma one_toggle_call_per_changed_flag_witness :
  List.filter (is_call "set-status")
    (emitted (_apply_changes 1 2 3) (start_state answers (store current changed_form)))
  = [[VStr "set-status"; VStr "disable"]].
Proof.
  exact (proj1 (one_toggle_call_per_changed_flag 1 2 3 current changed_form []
                  current_status changed_status
                  (start_state answers (store current changed_form))
                  eq_refl eq_refl eq_refl eq_refl eq_refl changed_run_quiet)).
Defined.

Lemma one_set_kite_call_witness :
  List.filter (is_call "set-kite")
    (emitted (_apply_changes 1 2 3) (start_state answers (store current changed_form)))
  = [[VStr "set-kite"; VStr "--kite-name"; VStr "box.pagekite.me";
      VStr "--kite-secret"; VStr "other"]].
Proof.
  exact (one_set_kite_call_iff_name_or_secret_changed 1 2 3 current changed_form []
           current_status changed_status
           (start_state answers (store current changed_form))
           eq_refl eq_refl eq_refl eq_refl eq_refl changed_run_quiet).
Defined.

Lemma calls_in_fixed_order_witness :
  StronglySorted lt
    (rank <$> emitted (_apply_changes 1 2 3)
                (start_state refusing (store current changed_form))).
Proof.
  exact (proj2 (calls_in_fixed_order 1 2 3 current changed_form []
                  current_status changed_status
                  (start_state refusing (store current changed_form))
                  eq_refl eq_refl eq_refl eq_refl eq_refl)).
Defined.

(** ** Errors of the tool during [_apply_changes] *)

(** C6: when an invocation made by [_apply_changes] comes back with a
    non-empty error output, [_apply_changes] raises the exception built from
    that error output, and that invocation is the last one of the run: the
    command is not issued again and no later command of the difference is
    issued.  Every invocation before it came back without error. *)
Theorem error_ends_apply_changes {E : Externals}
    (old_status new_status messages : loc) (s : state)
    (pre : list invocation) (i : invocation) (post : list invocation) :
  made (_apply_changes old_status new_status messages) s = pre ++ i :: post →
  inv_error i ≠ "" →
  (_apply_changes old_status new_status messages s).1
    = Raise (Exception (error_text (inv_error i))) ∧
  post = [] ∧
  quiet pre.
Proof.
  intros Hmade Herr.
  pose proof (_apply_changes_fails_fast old_status new_status messages) as Hff.
  pose proof (fails_fast_made _ s Hff) as Htr. rewrite Hmade in Htr.
  destruct (fails_fast_last _ s pre i post Hff Htr Herr) as (? & ? & ?).
  done.
Qed.

Lemma error_ends_apply_changes_witness :
  (_apply_changes 1 2 3 (start_state refusing (store current changed_form))).1
  = Raise (Exception "Error setting/getting PageKite confguration - bad secret") ∧
  emitted (_apply_changes 1 2 3) (start_state refusing (store current changed_form))
  = [[VStr "stop"]; [VStr "set-status"; VStr "disable"];
     [VStr "set-kite"; VStr "--kite-name"; VStr "box.pagekite.me";
      VStr "--kite-secret"; VStr "other"]].
Proof.
  split; [|by vm_compute].
  refine (proj1 (error_ends_apply_changes (E:=tool refusing) 1 2 3
    (start_state refusing (store current changed_form))
    [Invocation true command [VStr "stop"] "" "";
     Invocation true command [VStr "set-status"; VStr "disable"] "" ""]
    (Invocation true command
       [VStr "set-kite"; VStr "--kite-name"; VStr "box.pagekite.me";
        VStr "--kite-secret"; VStr "other"] "" "bad secret")
    [] _ _)).
  - by vm_compute.
  - by vm_compute.
Defined.

(** ** The store during [_apply_changes] *)

Section Appends.
Context {E : Externals}.
Variable messages : loc.

Local Abbreviation appends := (appends messages).

Lemma ap_silent {A} (m : M A) : (∀ s, (m s).2 = s) → appends m.
Proof.
  intros H s ms Hm. exists [], []. rewrite H, !app_nil_r.
  split; [done|]. split; [by rewrite insert_id|]. split; [constructor|done].
Qed.

Lemma ap_ret {A} (a : A) : appends (mret a).
Proof. by apply ap_silent. Qed.

Lemma ap_raise {A} e : appends (raise (A:=A) e).
Proof. by apply ap_silent. Qed.

Lemma ap_getitem l key : appends (getitem l key).
Proof.
  apply ap_silent. intros s. unfold getitem.
  destruct (st_heap s !! l) as [[d|?]|]; [|done..]. by destruct (d !! key).
Qed.

Lemma ap_ne l1 l2 : appends (ne l1 l2).
Proof. by apply ap_silent. Qed.

Lemma ap_bind {A B} (m : M A) (k : A → M B) :
  appends m → (∀ a, appends (k a)) → appends (m ≫= k).
Proof.
  intros Hm Hk s ms Hms.
  destruct (Hm s ms Hms) as (new1 & add1 & Htr1 & Hh1 & Hs1 & Hl1).
  destruct (m s) as [[a|e] s1] eqn:Hrun; cbn [fst snd] in *.
  - rewrite (bind_ok _ _ _ _ _ Hrun).
    destruct (Hk a s1 (ms ++ add1)) as (new2 & add2 & Htr2 & Hh2 & Hs2 & Hl2).
    { by rewrite Hh1, lookup_insert_eq. }
    exists (new1 ++ new2), (add1 ++ add2).
    rewrite Htr2, Htr1, Hh2, Hh1, insert_insert_eq, !app_assoc.
    split; [done|]. split; [done|]. split; [by apply Forall_app|].
    rewrite List.filter_app, !length_app. lia.
  - rewrite (bind_raise _ _ _ _ _ Hrun). cbn [snd]. by exists new1, add1.
Qed.

Lemma ap_run arguments superuser :
  is_set_call arguments = false → appends (_run arguments superuser).
Proof.
  intros Hset s ms Hms. rewrite _run_eq. cbn [snd].
  rewrite after_run_trace, after_run_heap. eexists _, [].
  split; [done|]. rewrite app_nil_r. split; [by rewrite insert_id|].
  split; [constructor|]. cbn. unfold applied. cbn. by rewrite Hset.
Qed.

Lemma ap_run_append arguments superuser x :
  is_set_call arguments = true → success x →
  appends (_run arguments superuser ≫= λ _, append messages x).
Proof.
  intros Hset Hx s ms Hms. unfold mbind, M_bind. rewrite _run_eq.
  pose proof (after_run_trace arguments superuser s) as Htr.
  pose proof (after_run_heap arguments superuser s) as Hh.
  case_bool_decide as Herr; cbn [snd].
  - exists [Invocation superuser command arguments
              (answer superuser arguments s).1 (answer superuser arguments s).2], [].
    rewrite Htr, Hh, app_nil_r. split; [done|]. split; [by rewrite insert_id|].
    split; [constructor|]. cbn. unfold applied. cbn.
    rewrite Hset. cbn. by rewrite (proj2 (String.eqb_neq _ _) Herr).
  - unfold append. rewrite Hh, Hms. cbn [snd st_trace st_heap].
    exists [Invocation superuser command arguments
              (answer superuser arguments s).1 (answer superuser arguments s).2], [x].
    split; [done|]. split; [done|].
    split; [by apply Forall_singleton|]. cbn. unfold applied. cbn.
    by rewrite Hset, Herr.
Qed.

Lemma ap_when {A} c (m : M A) : appends m → appends (when c m).
Proof.
  intros Hm. unfold when. destruct c; [|apply ap_ret].
  apply ap_bind; [done|]. intros _. apply ap_ret.
Qed.

Lemma ap_for {A} (xs : list A) body :
  (∀ x, appends (body x)) → appends (for_ xs body).
Proof.
  intros Hb. induction xs as [|x xs IH]; [apply ap_ret|].
  apply ap_bind; [apply Hb | by intros _].
Qed.

Ltac ap_step :=
  first
    [ apply ap_ret | apply ap_raise | apply ap_getitem | apply ap_ne
    | apply ap_run_append; reflexivity
    | apply ap_run; reflexivity
    | apply ap_when
    | apply ap_bind; [|intros ?]
    | match goal with |- appends (if ?c then _ else _) => destruct c end ].

Lemma _apply_changes_appends old_status new_status :
  appends (_apply_changes old_status new_status messages).
Proof.
  unfold _apply_changes. cbn [for_]. repeat ap_step.
Qed.

End Appends.

Lemma appends_made {E : Externals} {A} messages (m : M A) s ms :
  appends messages m → st_heap s !! messages = Some (OList ms) →
  ∃ add,
    st_heap (m s).2 = <[messages := OList (ms ++ add)]> (st_heap s) ∧
    Forall success add ∧
    length add = length (List.filter applied (made m s)).
Proof.
  intros Hm Hms. destruct (Hm s ms Hms) as (new & add & Htr & Hh & Hs & Hl).
  exists add. unfold made. by rewrite Htr, drop_app_length.
Qed.

Lemma expected_messages_length {E : Externals} o n :
  length (expected_messages o n) = changed_groups o n.
Proof.
  unfold expected_messages, changed_groups. rewrite !length_app.
  repeat case_bool_decide; cbn; lia.
Qed.

(** C10: whatever the tool answers, [_apply_changes] leaves the two status
    dictionaries as they were and changes the store only at the messages
    list, which keeps its entries and gets [('success', text)] entries
    appended at its end, one for every [set-...] invocation that came back
    without error; in a run in which no invocation reports an error this is
    one entry for every change group. *)
Theorem apply_changes_only_appends_messages {E : Externals}
    (old_status new_status messages : loc) (old new : dict)
    (ms : list message) (s : state) :
  st_heap s !! old_status = Some (ODict old) →
  st_heap s !! new_status = Some (ODict new) →
  st_heap s !! messages = Some (OList ms) →
  let s' := (_apply_changes old_status new_status messages s).2 in
  st_heap s' !! old_status = Some (ODict old) ∧
  st_heap s' !! new_status = Some (ODict new) ∧
  ∃ add,
    st_heap s' = <[messages := OList (ms ++ add)]> (st_heap s) ∧
    Forall (λ m, m.1 = "success") add ∧
    length add = length (List.filter applied
                   (made (_apply_changes old_status new_status messages) s)) ∧
    (quiet (made (_apply_changes old_status new_status messages) s) →
     ∀ o n, status_of old = Some o → status_of new = Some n →
     length add = changed_groups o n).
Proof.
  intros Ho Hn Hm s'.
  destruct (appends_made messages (_apply_changes old_status new_status messages)
              s ms (_apply_changes_appends messages old_status new_status) Hm)
    as (add & Hh & Hs & Hl).
  fold s' in Hh.
  assert (old_status ≠ messages) by (intros ->; congruence).
  assert (new_status ≠ messages) by (intros ->; congruence).
  split; [by rewrite Hh, lookup_insert_ne|].
  split; [by rewrite Hh, lookup_insert_ne|].
  exists add. split; [done|]. split; [done|]. split; [done|].
  intros Hquiet o n Hold Hnew.
  destruct (_apply_changes_quiet old_status new_status messages old new ms o n s
              Ho Hn Hm Hold Hnew Hquiet) as (s'' & Hrun & _ & Hh').
  assert (s' = s'') as -> by (unfold s'; by rewrite Hrun).
  assert (st_heap s'' !! messages = st_heap s'' !! messages) as Heq by done.
  rewrite Hh in Heq at 1. rewrite Hh' in Heq. rewrite !lookup_insert_eq in Heq.
  injection Heq as Heq. apply app_inv_head in Heq. subst add.
  apply expected_messages_length.
Qed.

Lemma apply_changes_only_appends_messages_witness :
  st_heap (_apply_changes 1 2 3
             (start_state refusing (store current changed_form))).2 !! 1
  = Some (ODict current).
Proof.
  exact (proj1 (apply_changes_only_appends_messages (E:=tool refusing) 1 2 3
                  current changed_form []
                  (start_state refusing (store current changed_form))
                  eq_refl eq_refl eq_refl)).
Defined.

(** ** [get_status] *)

Section GetStatus.
Context {E : Externals}.

Ltac gs_step :=
  first
    [ rewrite run_bind_eq; case_bool_decide
    | rewrite index_bind_eq;
      match goal with
      | |- context [match ?t with Some _ => _ | None => _ end] => destruct t eqn:?
      end
    | rewrite ret_bind_eq
    | rewrite bind_assoc_eq
    | rewrite ret_eq
    | match goal with
      | |- context [if bool_decide (?t ≠ "installed") then _ else _] =>
          destruct (decide (t = "installed")) as [->|?];
          [ rewrite (bool_decide_eq_false_2 ("installed" ≠ "installed")) by (by intros ?)
          | rewrite (bool_decide_eq_true_2 (t ≠ "installed")) by done ]
      end ].

(** Facts about an invocation in a leaf of the run. *)
Ltac refute_short :=
  match goal with
  | Herr : inv_error _ = "", Hne : _ ≠ "" |- _ => cbn in Herr; by destruct Hne
  | Hlen : length (split _) < needed _ |- _ =>
      cbn [inv_output inv_arguments] in Hlen;
      match type of Hlen with
      | context [needed ?a] =>
          let v := eval vm_compute in (needed a) in
          change (needed a) with v in Hlen
      end;
      repeat match goal with
             | H : split _ !! _ = Some _ |- _ => apply lookup_lt_Some in H
             end;
      lia
  end.

Ltac find_short :=
  repeat match goal with
         | H : (answer _ _ _).2 = "" |- _ => rewrite H
         end;
  match goal with
  | H : split ?out !! _ = None |- _ =>
      apply lookup_ge_None_1 in H;
      eexists (Invocation true command _ out "");
      split;
      [ repeat first [apply list_elem_of_here | apply list_elem_of_further]
      | split; [reflexivity|];
        cbn [inv_output inv_arguments];
        match goal with
        | |- context [needed ?a] =>
            let v := eval vm_compute in (needed a) in
            change (needed a) with v
        end; lia ]
  end.

Lemma get_status_index_error s :
  (get_status s).1 = Raise IndexError ↔
  ∃ i, i ∈ made get_status s ∧ inv_error i = "" ∧
       length (split (inv_output i)) < needed (inv_arguments i).
Proof.
  unfold made, get_status. cbn [for_fold].
  repeat gs_step.
  all: cbn [fst snd]; rewrite !after_run_trace, <-?app_assoc, drop_app_length;
    cbn [app].
  all: split; [intros Hr | intros (i & Hin & Herr & Hlen)]; try done.
  all: try (exfalso; repeat (apply elem_of_cons in Hin as [->|Hin]);
            [refute_short.. | by apply elem_of_nil in Hin]).
  all: find_short.
Qed.

Lemma service_keys :
  "http" +:+ "_enabled" = "http_enabled" ∧ "ssh" +:+ "_enabled" = "ssh_enabled".
Proof. done. Qed.

(** C7, as the code has it: a dictionary returned by [get_status] has
    exactly six keys: the five fields [enabled] (bool), [kite_name]
    (string), [kite_secret] (string), [http_enabled] (bool) and
    [ssh_enabled] (bool), and a sixth key [service] bound to an empty
    dictionary. *)
Theorem get_status_mapping_keys (s : state) (d : dict) :
  (get_status s).1 = Ok (Some d) →
  dom d = list_to_set status_keys ∧
  is_Some (status_of d) ∧
  d !! "service" = Some (VDict ∅).
Proof.
  unfold get_status. cbn [for_fold]. repeat gs_step.
  all: cbn [fst]; intros [= <-].
  destruct service_keys as [-> ->].
  split; [|split].
  - rewrite !dom_insert_L, dom_empty_L. unfold status_keys. cbn. set_solver.
  - unfold status_of. simplify_map_eq. by eexists.
  - by simplify_map_eq.
Qed.

(** C8: [get_status] returns [None] exactly when the [get-installed] call
    succeeds and the first piece of its output is not the word [installed].
    It returns a dictionary exactly when that piece is [installed] and the
    four further queries succeed with enough pieces in their outputs; in
    that dictionary [enabled] is true exactly when the first piece of the
    [get-status] output is [enabled], [kite_name] and [kite_secret] are the
    first and the second piece of the [get-kite] output, and [http_enabled]
    and [ssh_enabled] are true exactly when the first piece of the matching
    [get-service-status] output is [enabled]. *)
Theorem get_status_result (s : state) :
  let installed := answer true [VStr "get-installed"] s in
  let s1 := after_run [VStr "get-installed"] true s in
  let status := answer true [VStr "get-status"] s1 in
  let s2 := after_run [VStr "get-status"] true s1 in
  let kite := answer true [VStr "get-kite"] s2 in
  let s3 := after_run [VStr "get-kite"] true s2 in
  let http := answer true [VStr "get-service-status"; VStr "http"] s3 in
  let s4 := after_run [VStr "get-service-status"; VStr "http"] true s3 in
  let ssh := answer true [VStr "get-service-status"; VStr "ssh"] s4 in
  ((get_status s).1 = Ok None ↔
   installed.2 = "" ∧
   ∃ tok, split installed.1 !! 0 = Some tok ∧ tok ≠ "installed") ∧
  (∀ d, (get_status s).1 = Ok (Some d) ↔
     ∃ e name secret h sh,
       (installed.2 = "" ∧ split installed.1 !! 0 = Some "installed") ∧
       (status.2 = "" ∧ split status.1 !! 0 = Some e) ∧
       (kite.2 = "" ∧ split kite.1 !! 0 = Some name ∧
        split kite.1 !! 1 = Some secret) ∧
       (http.2 = "" ∧ split http.1 !! 0 = Some h) ∧
       (ssh.2 = "" ∧ split ssh.1 !! 0 = Some sh) ∧
       d = status_dict (bool_decide (e = "enabled")) name secret
             (bool_decide (h = "enabled")) (bool_decide (sh = "enabled"))).
Proof.
  cbv zeta. split; [|intros d].
  - unfold get_status. cbn [for_fold]. repeat gs_step.
    all: cbn [fst]; split; [intros [=] | intros (? & tok & ? & ?)];
      simplify_eq; eauto.
  - unfold get_status. cbn [for_fold]. repeat gs_step.
    all: cbn [fst]; try destruct service_keys as [-> ->].
    all: split;
      [ intros [= <-]
      | intros (e & name & secret & h & sh & (? & ?) & (? & ?) & (? & ? & ?)
                & (? & ?) & (? & ?) & ->) ];
      simplify_eq; try done.
    eexists _, _, _, _, _. by repeat split.
Qed.

End GetStatus.

(** C7, an input where the claim fails: the dictionary [get_status]
    returns for an installed PageKite holds the key [service] besides the
    five fields. *)
Lemma get_status_returns_service_key :
  (get_status (start_state answers ∅)).1 = Ok (Some current) ∧
  current !! "service" = Some (VDict ∅) ∧
  size current = 6.
Proof. repeat split; vm_compute; reflexivity. Qed.

Lemma get_status_mapping_keys_witness :
  dom current = list_to_set status_keys ∧
  is_Some (status_of current) ∧
  current !! "service" = Some (VDict ∅).
Proof.
  apply (get_status_mapping_keys (E:=tool answers) (start_state answers ∅)).
  vm_compute. reflexivity.
Defined.

Lemma get_status_result_witness :
  (get_status (start_state answers ∅)).1 = Ok (Some current).
Proof.
  apply (proj2 (get_status_result (E:=tool answers) (start_state answers ∅))
           current).
  exists "enabled", "box.pagekite.me", "s3cret", "enabled", "disabled".
  by repeat split.
Defined.

(** C9: [get_status] raises [IndexError] exactly when one of the queries
    it made came back without error and with fewer pieces in its output than
    [get_status] reads from it: two for [get-kite], one for every other
    query.  So it is free of index errors when every queried output has that
    many pieces, and only then; a tool that answers with an empty output makes
    it raise [IndexError]. *)
Theorem get_status_index_error_iff_output_too_short :
  (∀ (E : Externals) (s : state),
     (get_status s).1 = Raise IndexError ↔
     ∃ i, i ∈ made get_status s ∧ inv_error i = "" ∧
          length (split (inv_output i)) < needed (inv_arguments i)) ∧
  (get_status (start_state [] ∅)).1 = Raise IndexError.
Proof.
  split; [intros E s; apply get_status_index_error|].
  vm_compute. reflexivity.
Qed.

(** * Further properties of the module *)

(** ** [get_status]: its queries *)

Ltac run_step :=
  first
    [ rewrite run_bind_eq; case_bool_decide
    | rewrite index_bind_eq;
      match goal with
      | |- context [match ?t with Some _ => _ | None => _ end] => destruct t eqn:?
      end
    | rewrite ret_bind_eq
    | rewrite bind_assoc_eq
    | rewrite ret_eq
    | match goal with
      | |- context [if bool_decide (?t ≠ "installed") then _ else _] =>
          destruct (decide (t = "installed")) as [->|?];
          [ rewrite (bool_decide_eq_false_2 ("installed" ≠ "installed")) by (by intros ?)
          | rewrite (bool_decide_eq_true_2 (t ≠ "installed")) by done ]
      end ].

Section Queries.
Context {E : Externals}.

(** [get_status] leaves the store as it is. *)
Lemma get_status_heap s : st_heap (get_status s).2 = st_heap s.
Proof.
  unfold get_status. cbn [for_fold]. repeat run_step.
  all: cbn [snd]; by rewrite !after_run_heap.
Qed.

Lemma get_status_trace s :
  st_trace (get_status s).2 = st_trace s ++ made get_status s.
Proof. apply fails_fast_made, get_status_fails_fast. Qed.

Lemma emitted_made {A} (m : M A) s : emitted m s = inv_arguments <$> made m s.
Proof. unfold emitted, made, calls. by rewrite fmap_drop. Qed.

(** The calls of [get_status], by its result. *)
Lemma get_status_emitted s :
  match (get_status s).1 with
  | Ok (Some _) => emitted get_status s = queries
  | Ok None => emitted get_status s = [[VStr "get-installed"]]
  | Raise _ => emitted get_status s `prefix_of` queries
  end.
Proof.
  unfold emitted, calls, get_status. cbn [for_fold]. repeat run_step.
  all: cbn [fst snd]; rewrite !after_run_trace, <-?app_assoc, fmap_app;
    rewrite <-(length_fmap inv_arguments), drop_app_length; cbn.
  all: first [reflexivity | by eexists].
Qed.

(** X1: [get_status] only queries.  The calls it makes are an initial part
    of the five queries get-installed, get-status, get-kite,
    get-service-status http, get-service-status ssh; it makes all five when it
    returns a dictionary and only the first when it returns [None]. *)
Theorem get_status_only_queries s :
  emitted get_status s `prefix_of` queries ∧
  (∀ d, (get_status s).1 = Ok (Some d) → emitted get_status s = queries) ∧
  ((get_status s).1 = Ok None → emitted get_status s = [[VStr "get-installed"]]).
Proof.
  pose proof (get_status_emitted s) as H.
  destruct (get_status s).1 as [[d|]|e]; cbn [fst] in *.
  - rewrite H. split; [done|]. split; [done|]. by intros [=].
  - rewrite H. split; [by eexists|]. split; [by intros d [=]|done].
  - split; [done|]. split; [by intros d [=]|by intros [=]].
Qed.

End Queries.

(** ** [get_status]: what it returns *)




Section Returned.
Context {E : Externals}.

(** The dictionary [get_status] returns: its kite name and kite secret are
    pieces of the [get-kite] output. *)
Lemma get_status_Some s d :
  (get_status s).1 = Ok (Some d) →
  ∃ (e : bool) name secret (h sh : bool) output,
    name ∈ split output ∧ secret ∈ split output ∧
    d = status_dict e name secret h sh.
Proof.
  unfold get_status. cbn [for_fold]. repeat run_step.
  all: cbn [fst]; intros [= <-].
  destruct service_keys as [-> ->].
  eexists _, _, _, _, _, _. split; [|split; [|reflexivity]].
  - by eapply list_elem_of_lookup_2.
  - by eapply list_elem_of_lookup_2.
Qed.


(** X3: an error of the tool ends [get_status]: an invocation that comes
    back with a non-empty error output is the last one [get_status] makes,
    every invocation before it came back without error, and [get_status]
    raises the exception built from that error output. *)
Theorem error_ends_get_status s pre i post :
  made get_status s = pre ++ i :: post →
  inv_error i ≠ "" →
  (get_status s).1 = Raise (Exception (error_text (inv_error i))) ∧
  post = [] ∧
  quiet pre.
Proof.
  intros Hmade Herr.
  pose proof (get_status_trace s) as Htr. rewrite Hmade in Htr.
  destruct (fails_fast_last _ s pre i post get_status_fails_fast Htr Herr)
    as (? & ? & ?).
  done.
Qed.

End Returned.

(** ** [_apply_changes]: results, messages and missing objects *)

Section Primitives.
Context {E : Externals}.

Lemma ne_bind_eq {B} l1 l2 (k : bool → M B) s :
  (ne l1 l2 ≫= k) s = k (bool_decide (st_heap s !! l1 ≠ st_heap s !! l2)) s.
Proof. done. Qed.

Lemma getitem_bind_eq {B} l key (k : value → M B) s :
  (getitem l key ≫= k) s =
  match st_heap s !! l with
  | Some (ODict d) =>
      match d !! key with
      | Some v => k v s
      | None => (Raise (KeyError key), s)
      end
  | _ => (Raise TypeError, s)
  end.
Proof.
  unfold mbind, M_bind, getitem.
  destruct (st_heap s !! l) as [[d|?]|]; [|done..]. by destruct (d !! key).
Qed.

Lemma when_bind_eq {A B} (c : bool) (m : M A) (k : unit → M B) s :
  (when c m ≫= k) s = if c then (m ≫= λ _, k ()) s else k () s.
Proof.
  unfold when. destruct c; [|done].
  by rewrite bind_assoc_eq.
Qed.

End Primitives.

Section Outcome.
Context {E : Externals}.
Variables old_status new_status messages : loc.
Variables (old new : dict) (ms : list message) (o n : status).
Variable s : state.
Hypothesis Hold_at : st_heap s !! old_status = Some (ODict old).
Hypothesis Hnew_at : st_heap s !! new_status = Some (ODict new).
Hypothesis Hmessages_at : st_heap s !! messages = Some (OList ms).
Hypothesis Hold : status_of old = Some o.
Hypothesis Hnew : status_of new = Some n.

(** X4: for two status mappings, [_apply_changes] returns normally exactly
    when none of its invocations reports an error. *)
Theorem apply_changes_returns_iff_no_error :
  (_apply_changes old_status new_status messages s).1 = Ok () ↔
  quiet (made (_apply_changes old_status new_status messages) s).
Proof.
  destruct (_apply_changes_yields old_status new_status messages old new o n
              Hold Hnew s) as (inv & Htr & H).
  { split; [done|]. split; [done|]. by exists ms. }
  unfold made. rewrite Htr, drop_app_length.
  destruct H as [(Hq & Hres & _)|(Hq & (e & Hres) & _)].
  - by rewrite Hres.
  - rewrite Hres. by split.
Qed.

(** X5: in a run in which no invocation reports an error, the store after
    [_apply_changes] is the store before with these entries appended to the
    messages, in this order and only for the groups that changed: PageKite
    enabled or disabled, Kite details set, Service enabled or disabled for
    http, and the same for ssh; each text goes through [gettext], the service
    texts through [format] as well. *)
Theorem apply_changes_reports_each_change :
  quiet (made (_apply_changes old_status new_status messages) s) →
  st_heap (_apply_changes old_status new_status messages s).2 =
  <[messages := OList (ms ++ expected_messages o n)]> (st_heap s).
Proof.
  intros Hquiet.
  destruct (_apply_changes_quiet old_status new_status messages old new ms o n s
              Hold_at Hnew_at Hmessages_at Hold Hnew Hquiet)
    as (s' & Hrun & _ & Hh).
  by rewrite Hrun.
Qed.

End Outcome.

Section Missing.
Context {E : Externals}.
Variables old_status new_status messages : loc.
Variable s : state.

(** [_apply_changes] when the store holds nothing at [old_status]. *)
Lemma _apply_changes_none new :
  st_heap s !! old_status = None →
  st_heap s !! new_status = Some (ODict new) →
  emitted (_apply_changes old_status new_status messages) s = [[VStr "stop"]] ∧
  st_heap (_apply_changes old_status new_status messages s).2 = st_heap s ∧
  (_apply_changes old_status new_status messages s).1 =
    (if bool_decide ((answer true [VStr "stop"] s).2 = "")
     then Raise TypeError
     else Raise (Exception (error_text (answer true [VStr "stop"] s).2))).
Proof.
  intros Ho Hn. unfold emitted, calls, _apply_changes.
  rewrite ne_bind_eq, Ho, Hn.
  rewrite bool_decide_eq_true_2 by done.
  rewrite when_bind_eq, run_bind_eq.
  case_bool_decide as Herr.
  - cbn [fst snd]. rewrite after_run_trace, after_run_heap, fmap_app.
    rewrite <-(length_fmap inv_arguments), drop_app_length.
    by rewrite bool_decide_eq_false_2.
  - rewrite getitem_bind_eq, after_run_heap, Ho. cbn [fst snd].
    rewrite after_run_trace, after_run_heap, fmap_app.
    rewrite <-(length_fmap inv_arguments), drop_app_length.
    by rewrite bool_decide_eq_true_2.
Qed.

(** X6: when [old_status] is [None] and [new_status] is a dictionary,
    [_apply_changes] calls [stop] and nothing else, leaves the store as it
    is, and raises: [TypeError] when [stop] came back without error, the
    exception of [_run] otherwise. *)
Theorem apply_changes_without_old_status new :
  st_heap s !! old_status = None →
  st_heap s !! new_status = Some (ODict new) →
  emitted (_apply_changes old_status new_status messages) s = [[VStr "stop"]] ∧
  st_heap (_apply_changes old_status new_status messages s).2 = st_heap s ∧
  (_apply_changes old_status new_status messages s).1 =
    (if bool_decide ((answer true [VStr "stop"] s).2 = "")
     then Raise TypeError
     else Raise (Exception (error_text (answer true [VStr "stop"] s).2))).
Proof. apply _apply_changes_none. Qed.

(** X7: when one of the two dictionaries has no key [enabled],
    [_apply_changes] applies nothing: it calls [stop] if the dictionaries
    differ, makes no other call, and raises [KeyError] for [enabled] unless
    [stop] reported an error. *)
Theorem apply_changes_missing_enabled old new :
  st_heap s !! old_status = Some (ODict old) →
  st_heap s !! new_status = Some (ODict new) →
  old !! "enabled" = None ∨ new !! "enabled" = None →
  emitted (_apply_changes old_status new_status messages) s =
    (if bool_decide (old ≠ new) then [[VStr "stop"]] else []) ∧
  st_heap (_apply_changes old_status new_status messages s).2 = st_heap s ∧
  (_apply_changes old_status new_status messages s).1 =
    (if bool_decide (old ≠ new ∧ (answer true [VStr "stop"] s).2 ≠ "")
     then Raise (Exception (error_text (answer true [VStr "stop"] s).2))
     else Raise (KeyError "enabled")).
Proof.
  intros Ho Hn Hmissing. unfold emitted, calls, _apply_changes.
  rewrite ne_bind_eq, Ho, Hn.
  assert (bool_decide (Some (ODict old) ≠ Some (ODict new))
          = bool_decide (old ≠ new)) as ->.
  { apply bool_decide_ext. split; [congruence|]. by intros ? [= ?]. }
  rewrite when_bind_eq.
  assert (∀ (k : value → value → M unit) s', st_heap s' = st_heap s →
    (getitem old_status "enabled" ≫= λ o,
     getitem new_status "enabled" ≫= λ n, k o n) s'
    = (Raise (KeyError "enabled"), s')) as Hkey.
  { intros k s' Hs'. rewrite getitem_bind_eq, Hs', Ho.
    destruct (old !! "enabled") as [v|] eqn:Hv; [|done].
    rewrite getitem_bind_eq, Hs', Hn.
    destruct Hmissing as [? | ->]; done. }
  case_bool_decide as Hdiff.
  - rewrite run_bind_eq. case_bool_decide as Herr.
    + cbn [fst snd]. rewrite after_run_trace, after_run_heap, fmap_app.
      rewrite <-(length_fmap inv_arguments), drop_app_length.
      by rewrite bool_decide_eq_true_2.
    + erewrite Hkey by apply after_run_heap. cbn [fst snd].
      rewrite after_run_trace, after_run_heap, fmap_app.
      rewrite <-(length_fmap inv_arguments), drop_app_length.
      rewrite bool_decide_eq_false_2; [done|]. intros [_ ?]. done.
  - erewrite Hkey by done. cbn [fst snd].
    rewrite <-(length_fmap inv_arguments), drop_all.
    rewrite bool_decide_eq_false_2; [done|]. by intros [? _].
Qed.

End Missing.

(** ** [configure] *)

Section ConfigureFacts.
Context {E : Externals}.
Variable post : Type.
Variable is_valid : post → bool.
Variable cleaned_data : post → dict.

Local Abbreviation configure := (configure post is_valid cleaned_data).
Local Abbreviation alloc := (alloc (E:=E)).

(** The object [o] put at a new location of the store of [s]. *)
Local Abbreviation stored s o :=
  {| st_world := st_world s; st_trace := st_trace s;
     st_heap := <[fresh (dom (st_heap s)) := o]> (st_heap s) |}.

Lemma alloc_bind_eq {B} o (k : loc → M B) s :
  (alloc o ≫= k) s = k (fresh (dom (st_heap s))) (stored s o).
Proof. done. Qed.

Lemma entries_bind_eq {B} l (k : list message → M B) s :
  (entries l ≫= k) s =
  match st_heap s !! l with
  | Some (OList xs) => k xs s
  | _ => (Raise TypeError, s)
  end.
Proof.
  unfold mbind, M_bind, entries. by destruct (st_heap s !! l) as [[?|?]|].
Qed.

Lemma fresh_lookup (h : gmap loc obj) : h !! fresh (dom h) = None.
Proof. apply not_elem_of_dom, is_fresh. Qed.

Lemma fresh_ne (h : gmap loc obj) l o : h !! l = Some o → l ≠ fresh (dom h).
Proof. intros Hl ->. by rewrite fresh_lookup in Hl. Qed.

(** A request that is not a valid POST: the view queries the status and
    shows it. *)
Lemma configure_shows method data s :
  method ≠ "POST" ∨ is_valid data = false →
  configure method data s =
  match get_status s with
  | (Ok status, s1) =>
      (Ok (Response post (gettext "Configure PageKite")
             (if bool_decide (method = "POST") then Bound post data
              else Unbound post status) []),
       stored s1 (OList []))
  | (Raise e, s1) => (Raise e, s1)
  end.
Proof.
  intros Hreq. unfold configure.
  destruct (get_status s) as [[status|e] s1] eqn:Hrun.
  - rewrite (bind_ok _ _ _ _ _ Hrun), alloc_bind_eq.
    assert ((if bool_decide (method = "POST")
             then if is_valid data
                  then _
                  else mret (Bound post data)
             else mret (Unbound post status))
            = (mret (if bool_decide (method = "POST") then Bound post data
                     else Unbound post status) : M (form post))) as ->.
    { case_bool_decide; [|done]. destruct Hreq as [?| ->]; done. }
    rewrite ret_bind_eq, entries_bind_eq. cbn [st_heap].
    by rewrite lookup_insert_eq.
  - by rewrite (bind_raise _ _ _ _ _ Hrun).
Qed.

Lemma reference_bind_eq {B} status (k : loc → M B) s :
  (reference status ≫= k) s =
  k (fresh (dom (st_heap s)))
    match status with
    | Some d => stored s (ODict d)
    | None => s
    end.
Proof. by destruct status. Qed.

(** A valid POST: the view applies the posted data to the status it read,
    reads the status again and shows it. *)
Lemma configure_applies data s :
  is_valid data = true →
  configure "POST" data s =
  match get_status s with
  | (Ok status, s1) =>
      let messages := fresh (dom (st_heap s1)) in
      let s2 := stored s1 (OList []) in
      let new_status := fresh (dom (st_heap s2)) in
      let s3 := stored s2 (ODict (cleaned_data data)) in
      let old_status := fresh (dom (st_heap s3)) in
      let s4 := match status with
                | Some d => stored s3 (ODict d)
                | None => s3
                end in
      match _apply_changes old_status new_status messages s4 with
      | (Ok _, s5) =>
          match get_status s5 with
          | (Ok status', s6) =>
              match st_heap s6 !! messages with
              | Some (OList xs) =>
                  (Ok (Response post (gettext "Configure PageKite")
                         (Unbound post status') xs), s6)
              | _ => (Raise TypeError, s6)
              end
          | (Raise e, s6) => (Raise e, s6)
          end
      | (Raise e, s5) => (Raise e, s5)
      end
  | (Raise e, s1) => (Raise e, s1)
  end.
Proof.
  intros Hvalid. unfold configure.
  destruct (get_status s) as [[status|e] s1] eqn:Hrun;
    [|by rewrite (bind_raise _ _ _ _ _ Hrun)].
  rewrite (bind_ok _ _ _ _ _ Hrun), alloc_bind_eq.
  rewrite bool_decide_eq_true_2, Hvalid by done. cbv zeta.
  rewrite !bind_assoc_eq, alloc_bind_eq.
  rewrite !bind_assoc_eq, reference_bind_eq.
  rewrite !bind_assoc_eq.
  match goal with
  | |- (?m ≫= _) ?s4 = _ => destruct (m s4) as [[[]|e] s5] eqn:Hac
  end; [|by rewrite (bind_raise _ _ _ _ _ Hac)].
  rewrite (bind_ok _ _ _ _ _ Hac), !bind_assoc_eq.
  destruct (get_status s5) as [[status'|e] s6] eqn:Hrun2;
    [|by rewrite (bind_raise _ _ _ _ _ Hrun2)].
  rewrite (bind_ok _ _ _ _ _ Hrun2), ret_bind_eq, entries_bind_eq.
  by destruct (st_heap s6 !! _) as [[?|?]|].
Qed.

End ConfigureFacts.

Section Restart.
Context {E : Externals}.

Lemma calls_after {A} (m : M A) s :
  fails_fast m → calls (m s).2 = calls s ++ emitted m s.
Proof.
  intros Hm. unfold calls at 1.
  by rewrite (fails_fast_made m s Hm), fmap_app, emitted_made.
Qed.

Lemma made_when_run (c : bool) arguments s :
  made (when c (_run arguments true)) s =
  if c then [Invocation true command arguments
               (answer true arguments s).1 (answer true arguments s).2]
  else [].
Proof.
  unfold made, when. destruct c; [|cbn; by rewrite drop_all].
  rewrite run_bind_eq. case_bool_decide; cbv beta; rewrite ?ret_eq; cbn [snd];
    by rewrite after_run_trace, drop_app_length.
Qed.

(** The invocations of [m ≫= k] are those of [m] followed by those of the
    continuation. *)
Lemma made_bind {A B} (m : M A) (k : A → M B) s :
  fails_fast m → (∀ a, fails_fast (k a)) →
  made (m ≫= k) s =
  made m s ++ match m s with
              | (Ok a, s1) => made (k a) s1
              | (Raise _, _) => []
              end.
Proof.
  intros Hm Hk. pose proof (fails_fast_made m s Hm) as H1.
  unfold made at 1. destruct (m s) as [[a|e] s1] eqn:Hrun; cbn [snd] in H1.
  - rewrite (bind_ok _ _ _ _ _ Hrun), (fails_fast_made (k a) s1 (Hk a)), H1.
    by rewrite <-app_assoc, drop_app_length.
  - rewrite (bind_raise _ _ _ _ _ Hrun). cbn [snd].
    by rewrite H1, drop_app_length, app_nil_r.
Qed.

(** When the two objects differ, the first call is [stop]. *)
Lemma _apply_changes_stop_first old_status new_status messages s :
  st_heap s !! old_status ≠ st_heap s !! new_status →
  ∃ rest, emitted (_apply_changes old_status new_status messages) s
          = [VStr "stop"] :: rest.
Proof.
  intros Hne. rewrite emitted_made. unfold _apply_changes.
  rewrite made_bind by (intros; repeat ff_step).
  unfold ne at 1 2. cbn [fst snd]. rewrite bool_decide_eq_true_2 by done.
  rewrite made_bind by (intros; repeat ff_step).
  rewrite made_when_run. unfold made at 1. rewrite drop_all.
  cbn [app fmap list_fmap]. by eexists.
Qed.

(** [get_status] raises nothing but [IndexError] when no invocation reports
    an error. *)
Lemma get_status_raise_quiet s e :
  (get_status s).1 = Raise e → quiet (made get_status s) → e = IndexError.
Proof.
  unfold made, get_status. cbn [for_fold]. repeat run_step.
  all: cbn [fst snd]; rewrite !after_run_trace, <-?app_assoc, drop_app_length;
    cbn [app].
  all: intros [= <-]; try done.
  all: intros Hq; exfalso; unfold quiet in Hq; rewrite Forall_forall in Hq.
  all: match goal with
       | H : ?x ≠ "", Hq : ∀ i, i ∈ ?l → _ |- _ =>
           match l with
           | context [Invocation ?a ?b ?c ?d x] =>
               apply H; refine (Hq (Invocation a b c d x) _)
           end
       end.
  all: repeat first [apply list_elem_of_here | apply list_elem_of_further].
Qed.

End Restart.

Section Differ.
Context {E : Externals}.

Lemma get_status_emitted_prefix s : emitted get_status s `prefix_of` queries.
Proof.
  pose proof (get_status_emitted s) as H.
  destruct (get_status s).1 as [[d|]|e]; [by rewrite H|rewrite H; by eexists|done].
Qed.

Lemma status_of_status_dict e name secret h sh :
  status_of (status_dict e name secret h sh) = Some (Status e name secret h sh).
Proof. reflexivity. Qed.

(** The cleaned data of the form is never the dictionary [get_status]
    returns: it has the key [server]. *)
Lemma status_dict_ne_cleaned e name secret h sh (data : dict) :
  dom data = list_to_set form_fields →
  status_dict e name secret h sh ≠ data.
Proof.
  intros Hdom Heq.
  assert ("server" ∈ dom data) as Hin by (rewrite Hdom; set_solver).
  rewrite <-Heq in Hin. apply elem_of_dom in Hin as [v Hv].
  vm_compute in Hv. discriminate Hv.
Qed.

End Differ.

Section View.
Context {E : Externals}.
Variable post : Type.
Variable is_valid : post → bool.
Variable cleaned_data : post → dict.

Local Abbreviation configure := (configure post is_valid cleaned_data).

Lemma configure_shows_made method data s :
  method ≠ "POST" ∨ is_valid data = false →
  made (configure method data) s = made get_status s.
Proof.
  intros H. unfold made. rewrite configure_shows by done.
  by destruct (get_status s) as [[st|e] s1].
Qed.

(** A valid POST, once the status is read: the objects handed to
    [_apply_changes], the state it starts in, and what follows. *)
Lemma configure_run data s status s1 :
  is_valid data = true →
  get_status s = (Ok status, s1) →
  ∃ old_status new_status messages s4,
    st_world s4 = st_world s1 ∧
    st_trace s4 = st_trace s1 ∧
    st_heap s4 !! old_status = ODict <$> status ∧
    st_heap s4 !! new_status = Some (ODict (cleaned_data data)) ∧
    st_heap s4 !! messages = Some (OList []) ∧
    configure "POST" data s =
      match _apply_changes old_status new_status messages s4 with
      | (Ok _, s5) =>
          match get_status s5 with
          | (Ok status', s6) =>
              match st_heap s6 !! messages with
              | Some (OList xs) =>
                  (Ok (Response post (gettext "Configure PageKite")
                         (Unbound post status') xs), s6)
              | _ => (Raise TypeError, s6)
              end
          | (Raise e, s6) => (Raise e, s6)
          end
      | (Raise e, s5) => (Raise e, s5)
      end ∧
    made (configure "POST" data) s =
      made get_status s ++
      made (_apply_changes old_status new_status messages) s4 ++
      match _apply_changes old_status new_status messages s4 with
      | (Ok _, s5) => made get_status s5
      | (Raise _, _) => []
      end.
Proof.
  intros Hvalid Hrun.
  pose proof (configure_applies post is_valid cleaned_data data s Hvalid) as Hc.
  rewrite Hrun in Hc. cbv zeta in Hc.
  pose proof (get_status_trace s) as Htr1. rewrite Hrun in Htr1. cbn [snd] in Htr1.
  eexists _, _, _, _. split; [|split; [|split; [|split; [|split; [|split; [exact Hc|]]]]]].
  - by destruct status.
  - by destruct status.
  - destruct status; cbn [st_heap fmap option_fmap option_map].
    + by rewrite lookup_insert_eq.
    + apply fresh_lookup.
  - destruct status; cbn [st_heap].
    + rewrite lookup_insert_ne, lookup_insert_eq; [done|].
      apply not_eq_sym, (fresh_ne _ _ (ODict (cleaned_data data))).
      by rewrite lookup_insert_eq.
    + by rewrite lookup_insert_eq.
  - assert (∀ (h : gmap loc obj) o,
      <[fresh (dom (<[fresh (dom h) := OList []]> h)) := o]>
        (<[fresh (dom h) := OList []]> h) !! fresh (dom h) = Some (OList []))
      as Hm.
    { intros h o. rewrite lookup_insert_ne, lookup_insert_eq; [done|].
      apply not_eq_sym, (fresh_ne _ _ (OList [])). by rewrite lookup_insert_eq. }
    destruct status; cbn [st_heap]; [|apply Hm].
    rewrite lookup_insert_ne; [apply Hm|].
    apply not_eq_sym, (fresh_ne _ _ (OList [])). apply Hm.
  - unfold made at 1. rewrite Hc.
    match goal with
    | |- context [_apply_changes ?a ?b ?c ?s4] =>
        pose proof (fails_fast_made _ s4 (_apply_changes_fails_fast a b c)) as Htr2;
        destruct (_apply_changes a b c s4) as [[[]|e] s5] eqn:Hac
    end; cbn [snd] in Htr2.
    + pose proof (get_status_trace s5) as Htr3.
      assert (st_trace
                (let (r, s6) := get_status s5 in
                 match r with
                 | Ok status' =>
                     match st_heap s6 !! fresh (dom (st_heap s1)) with
                     | Some (OList xs) =>
                         (Ok (Response post (gettext "Configure PageKite")
                                (Unbound post status') xs), s6)
                     | _ => (Raise TypeError, s6)
                     end
                 | Raise e => (Raise e, s6)
                 end).2 = st_trace (get_status s5).2) as ->.
      { destruct (get_status s5) as [[?|?] s6]; [|done].
        by destruct (st_heap s6 !! _) as [[?|?]|]. }
      rewrite Htr3, Htr2.
      assert (st_trace (match status with
                        | Some d => _
                        | None => _
                        end) = st_trace s1) as -> by (by destruct status).
      cbn [st_trace]. rewrite Htr1, <-!app_assoc. apply drop_app_length.
    + cbn [snd]. rewrite Htr2.
      assert (st_trace (match status with
                        | Some d => _
                        | None => _
                        end) = st_trace s1) as -> by (by destruct status).
      cbn [st_trace]. rewrite Htr1, app_nil_r, <-!app_assoc. apply drop_app_length.
Qed.

(** X8: a request that is not a valid POST changes nothing.  The view makes
    the calls of one [get_status], all of them queries, and none else; it
    raises what [get_status] raises, and otherwise returns the page with no
    message, the form showing the status read, or, for a POST that is not
    valid, the posted data. *)
Theorem configure_shows_without_applying method data s :
  method ≠ "POST" ∨ is_valid data = false →
  emitted (configure method data) s = emitted get_status s ∧
  emitted (configure method data) s `prefix_of` queries ∧
  (configure method data s).1 =
    match (get_status s).1 with
    | Ok status =>
        Ok (Response post (gettext "Configure PageKite")
              (if bool_decide (method = "POST") then Bound post data
               else Unbound post status) [])
    | Raise e => Raise e
    end.
Proof.
  intros Hreq.
  assert (emitted (configure method data) s = emitted get_status s) as Hem.
  { by rewrite !emitted_made, configure_shows_made. }
  split; [done|]. split.
  - rewrite Hem. apply get_status_emitted_prefix.
  - rewrite configure_shows by done.
    by destruct (get_status s) as [[status|e] s1].
Qed.

(** X9: a valid POST while PageKite is not installed.  [get_status]
    returned [None], which the view hands to [_apply_changes]: the service
    is stopped, nothing else is called, and the view raises, [TypeError]
    unless [stop] reported an error. *)
Theorem configure_post_when_not_installed data s :
  is_valid data = true →
  (get_status s).1 = Ok None →
  emitted (configure "POST" data) s = [[VStr "get-installed"]; [VStr "stop"]] ∧
  (configure "POST" data s).1 =
    (if bool_decide ((answer true [VStr "stop"] (get_status s).2).2 = "")
     then Raise TypeError
     else Raise (Exception
                   (error_text (answer true [VStr "stop"] (get_status s).2).2))).
Proof.
  intros Hvalid Hnone.
  pose proof (get_status_emitted s) as Hq. rewrite Hnone in Hq.
  destruct (get_status s) as [r s1] eqn:Hrun. cbn [fst snd] in *. subst r.
  destruct (configure_run data s None s1 Hvalid Hrun)
    as (old_status & new_status & messages & s4 &
        Hw & _ & Ho & Hn & _ & Hc & Hmade).
  destruct (_apply_changes_none old_status new_status messages s4 _ Ho Hn)
    as (Hem & _ & Hres).
  assert (answer true [VStr "stop"] s4 = answer true [VStr "stop"] s1) as Hans
    by (unfold answer; by rewrite Hw).
  rewrite Hans in Hres.
  destruct (_apply_changes old_status new_status messages s4) as [[[]|e] s5] eqn:Hac;
    cbn [fst] in Hres; [by case_bool_decide|].
  split.
  - rewrite emitted_made, Hmade, !fmap_app, <-!emitted_made, Hq, Hem.
    by rewrite app_nil_r.
  - rewrite Hc. cbn [fst]. by case_bool_decide; injection Hres as ->.
Qed.

(** X10: a valid POST while PageKite is installed always stops the
    service.  The data of the form has its six fields as keys while the
    status read has not, so the two differ even when nothing was changed:
    after the five queries the next call is [stop]. *)
Theorem configure_valid_post_stops_service data s d :
  is_valid data = true →
  dom (cleaned_data data) = list_to_set form_fields →
  (get_status s).1 = Ok (Some d) →
  ∃ rest, emitted (configure "POST" data) s = queries ++ [VStr "stop"] :: rest.
Proof.
  intros Hvalid Hdom Hsome.
  pose proof (get_status_emitted s) as Hq. rewrite Hsome in Hq.
  destruct (get_status_Some s d Hsome)
    as (e & name & secret & h & sh & output & _ & _ & ->).
  destruct (get_status s) as [r s1] eqn:Hrun. cbn [fst] in Hsome. subst r.
  destruct (configure_run data s _ s1 Hvalid Hrun)
    as (old_status & new_status & messages & s4 &
        _ & _ & Ho & Hn & _ & _ & Hmade).
  destruct (_apply_changes_stop_first old_status new_status messages s4)
    as [rest Hrest].
  { rewrite Ho, Hn. cbn. intros [= Heq].
    by apply (status_dict_ne_cleaned e name secret h sh (cleaned_data data)). }
  eexists. rewrite emitted_made, Hmade, !fmap_app, <-!emitted_made, Hq, Hrest.
  rewrite <-app_comm_cons. reflexivity.
Qed.

(** X11: a valid POST while PageKite is installed, in a run in which no
    invocation reports an error.  The view hands to [_apply_changes] the
    status read, the posted data and an empty list, in the world the first
    reading left.  It makes the five queries, then the calls that take the
    status read to the posted data, between [stop] and [start], then the
    queries of a second [get_status], run in the state [_apply_changes] left.
    It returns the page with one message for each change made and a form
    whose initial data is what that second [get_status] returns, or raises
    [IndexError] when that reading meets an output that is too short. *)
Theorem configure_applies_posted_data data s d n :
  is_valid data = true →
  dom (cleaned_data data) = list_to_set form_fields →
  status_of (cleaned_data data) = Some n →
  (get_status s).1 = Ok (Some d) →
  quiet (made (configure "POST" data) s) →
  ∃ o old_status new_status messages s4,
    status_of d = Some o ∧
    st_world s4 = st_world (get_status s).2 ∧
    st_trace s4 = st_trace (get_status s).2 ∧
    st_heap s4 !! old_status = Some (ODict d) ∧
    st_heap s4 !! new_status = Some (ODict (cleaned_data data)) ∧
    st_heap s4 !! messages = Some (OList []) ∧
    let s5 := (_apply_changes old_status new_status messages s4).2 in
    emitted (_apply_changes old_status new_status messages) s4
      = expected_calls true o n ∧
    emitted (configure "POST" data) s
      = queries ++ expected_calls true o n ++ emitted get_status s5 ∧
    (configure "POST" data s).1 =
      match (get_status s5).1 with
      | Ok status =>
          Ok (Response post (gettext "Configure PageKite")
                (Unbound post status) (expected_messages o n))
      | Raise _ => Raise IndexError
      end.
Proof.
  intros Hvalid Hdom Hnew Hsome Hquiet.
  pose proof (get_status_emitted s) as Hq. rewrite Hsome in Hq.
  destruct (get_status_Some s d Hsome)
    as (e & name & secret & h & sh & output & _ & _ & ->).
  destruct (get_status s) as [r s1] eqn:Hrun. cbn [fst snd] in *. subst r.
  destruct (configure_run data s _ s1 Hvalid Hrun)
    as (old_status & new_status & messages & s4 &
        Hw & Htr & Ho & Hn & Hm & Hc & Hmade).
  rewrite Hmade in Hquiet. unfold quiet in Hquiet.
  apply Forall_app in Hquiet as [_ [Hq2 Hq3]%Forall_app].
  destruct (_apply_changes_quiet old_status new_status messages
              _ _ [] _ n s4 Ho Hn Hm
              (status_of_status_dict e name secret h sh) Hnew Hq2)
    as (s5 & Hac & _ & Hheap).
  pose proof (_apply_changes_emitted old_status new_status messages
              _ _ [] _ n s4 Ho Hn Hm
              (status_of_status_dict e name secret h sh) Hnew Hq2) as Hem.
  rewrite bool_decide_eq_true_2 in Hem
    by (by apply status_dict_ne_cleaned).
  rewrite Hac in Hc, Hmade, Hq3.
  exists (Status e name secret h sh), old_status, new_status, messages, s4.
  split; [apply status_of_status_dict|].
  do 5 (split; [done|]). rewrite Hac. cbn [snd].
  split; [done|]. split.
  - by rewrite emitted_made, Hmade, !fmap_app, <-!emitted_made, Hq, Hem.
  - pose proof (get_status_heap s5) as Hh6.
    pose proof (get_status_raise_quiet s5) as Hraise.
    destruct (get_status s5) as [[status'|e'] s6] eqn:Hrun2; cbn [fst snd] in *.
    + rewrite Hc. cbn [fst snd].
      rewrite Hh6, Hheap, lookup_insert_eq. done.
    + rewrite Hc. cbn [fst]. f_equal. by apply Hraise.
Qed.

End View.

(** ** [TrimmedCharField.clean] *)

Section Strip.
Variable char : Type.
Variable space : char → bool.

Local Abbreviation lstrip := (lstrip char space).
Local Abbreviation rstrip := (rstrip char space).
Local Abbreviation strip := (strip char space).
Local Abbreviation blank := (blank char space).
Local Abbreviation trimmed := (trimmed char space).

(** A text whose first, or last, character, if any, is not white space. *)
Local Abbreviation solid x :=
  (match x with Some c => negb (space c) | None => true end).

Lemma blank_app s t : blank (s ++ t) = blank s && blank t.
Proof. apply forallb_app. Qed.

Lemma blank_reverse s : blank (reverse s) = blank s.
Proof.
  induction s as [|c s IH]; [done|].
  rewrite reverse_cons, blank_app, IH. cbn. rewrite andb_true_r. apply andb_comm.
Qed.

Lemma lstrip_blank_app pre s : blank pre = true → lstrip (pre ++ s) = lstrip s.
Proof.
  induction pre as [|c pre IH]; [done|]. cbn.
  intros [-> ?]%andb_true_iff. by apply IH.
Qed.

Lemma lstrip_clear s : solid (head s) = true → lstrip s = s.
Proof. destruct s as [|c s]; [done|]. cbn. by intros ->%negb_true_iff. Qed.

Lemma lstrip_split s :
  ∃ pre, s = pre ++ lstrip s ∧ blank pre = true ∧ solid (head (lstrip s)) = true.
Proof.
  induction s as [|c s IH]; [by exists []|].
  destruct IH as (pre & Hs & Hpre & Hhead). cbn. destruct (space c) eqn:Hc.
  - exists (c :: pre). split; [cbn; by f_equal|]. split; [|done].
    unfold blank in *. cbn [forallb]. by rewrite Hc, Hpre.
  - exists []. cbn. by rewrite Hc.
Qed.

Lemma rstrip_app_blank s post : blank post = true → rstrip (s ++ post) = rstrip s.
Proof.
  intros Hpost. unfold rstrip.
  by rewrite reverse_app, lstrip_blank_app by (by rewrite blank_reverse).
Qed.

Lemma rstrip_clear s : solid (last s) = true → rstrip s = s.
Proof.
  intros Hlast. unfold rstrip.
  rewrite lstrip_clear by (by rewrite head_reverse).
  apply reverse_involutive.
Qed.

Lemma rstrip_split s :
  ∃ post, s = rstrip s ++ post ∧ blank post = true ∧ solid (last (rstrip s)) = true.
Proof.
  destruct (lstrip_split (reverse s)) as (pre & Hs & Hpre & Hhead).
  exists (reverse pre). unfold rstrip. split; [|split].
  - by rewrite <-reverse_app, <-Hs, reverse_involutive.
  - by rewrite blank_reverse.
  - by rewrite last_reverse.
Qed.

Lemma rstrip_head s : solid (head s) = true → solid (head (rstrip s)) = true.
Proof.
  destruct (rstrip_split s) as (post & Hs & _ & _).
  destruct (rstrip s) as [|c t]; [done|].
  intros Hhead. rewrite Hs in Hhead. done.
Qed.

(** The text between a blank beginning and a blank end is what [strip]
    returns, if it is trimmed. *)
Lemma strip_core pre core post :
  blank pre = true → blank post = true → trimmed core = true →
  strip (pre ++ core ++ post) = core.
Proof.
  intros Hpre Hpost [Hhead Hlast]%andb_true_iff. unfold strip.
  rewrite lstrip_blank_app by done.
  destruct core as [|c core].
  - cbn [app]. rewrite <-(app_nil_r post), lstrip_blank_app by done. done.
  - rewrite lstrip_clear by done. rewrite rstrip_app_blank by done.
    by apply rstrip_clear.
Qed.

Lemma strip_split s :
  ∃ pre post, s = pre ++ strip s ++ post ∧
    blank pre = true ∧ blank post = true ∧ trimmed (strip s) = true.
Proof.
  destruct (lstrip_split s) as (pre & Hs & Hpre & Hhead).
  destruct (rstrip_split (lstrip s)) as (post & Hs' & Hpost & Hlast).
  exists pre, post. unfold strip, trimmed.
  split; [by rewrite <-Hs', <-Hs|]. split; [done|]. split; [done|].
  apply andb_true_iff. split; [by apply rstrip_head|done].
Qed.

Variable R : Type.
Variable super_clean : option (list char) → R.

Local Abbreviation clean := (clean char space R super_clean).

(** X12: what [TrimmedCharField] hands to the validation of [CharField]
    for a text that is not empty: the text without the white space it begins
    with and the white space it ends with, a text that neither begins nor
    ends with white space. *)
Theorem clean_validates_trimmed_text v :
  v ≠ [] →
  ∃ pre core post,
    v = pre ++ core ++ post ∧
    blank pre = true ∧ blank post = true ∧ trimmed core = true ∧
    clean (Some v) = super_clean (Some core).
Proof.
  intros Hv. destruct (strip_split v) as (pre & post & Hs & Hpre & Hpost & Htr).
  exists pre, (strip v), post. repeat (split; [done|]).
  clear Hs Htr. by destruct v.
Qed.

(** X13: white space around a text does not count.  A text that is made of
    white space, a trimmed text and white space again is validated as the
    trimmed text; so is every other text that differs from it only in the
    white space around it, and a text of white space only is validated as the
    empty text. *)
Theorem clean_ignores_surrounding_space pre core post :
  blank pre = true → blank post = true → trimmed core = true →
  pre ++ core ++ post ≠ [] →
  clean (Some (pre ++ core ++ post)) = super_clean (Some core).
Proof.
  intros Hpre Hpost Hcore Hne. unfold clean.
  destruct (pre ++ core ++ post) as [|c v] eqn:Hv; [done|].
  by rewrite <-Hv, strip_core.
Qed.

End Strip.

(** ** The further properties at concrete inputs *)


Lemma error_ends_get_status_witness :
  (get_status (start_state failing ∅)).1
    = Raise (Exception (error_text "no answer")) ∧
  @nil invocation = [] ∧
  quiet [Invocation true command [VStr "get-installed"] "installed" ""].
Proof.
  apply (error_ends_get_status (E:=tool failing) (start_state failing ∅)
           [Invocation true command [VStr "get-installed"] "installed" ""]
           (Invocation true command [VStr "get-status"] "" "no answer") []).
  - reflexivity.
  - discriminate.
Defined.

Lemma apply_changes_returns_iff_no_error_witness :
  (_apply_changes 1 2 3 (start_state refusing (store current changed_form))).1
    = Ok () ↔
  quiet (made (_apply_changes 1 2 3)
           (start_state refusing (store current changed_form))).
Proof.
  apply (apply_changes_returns_iff_no_error (E:=tool refusing) 1 2 3
           current changed_form [] current_status changed_status
           (start_state refusing (store current changed_form))).
  all: reflexivity.
Defined.

Lemma apply_changes_reports_each_change_witness :
  st_heap (_apply_changes 1 2 3
             (start_state answers (store current changed_form))).2 =
  <[3 := OList ([] ++ expected_messages (E:=tool answers)
                        current_status changed_status)]>
    (store current changed_form).
Proof.
  apply (apply_changes_reports_each_change (E:=tool answers) 1 2 3
           current changed_form [] current_status changed_status
           (start_state answers (store current changed_form))).
  1-5: reflexivity.
  vm_compute. repeat constructor.
Defined.

Lemma apply_changes_without_old_status_witness :
  emitted (_apply_changes 1 2 3)
    (start_state answers (store_without_old changed_form)) = [[VStr "stop"]].
Proof.
  apply (apply_changes_without_old_status (E:=tool answers) 1 2 3
           (start_state answers (store_without_old changed_form)) changed_form).
  all: reflexivity.
Defined.

Lemma apply_changes_missing_enabled_witness :
  emitted (_apply_changes 1 2 3)
    (start_state answers (store ∅ changed_form)) =
  (if bool_decide ((∅ : dict) ≠ changed_form) then [[VStr "stop"]] else []).
Proof.
  apply (apply_changes_missing_enabled (E:=tool answers) 1 2 3
           (start_state answers (store ∅ changed_form)) ∅ changed_form).
  - reflexivity.
  - reflexivity.
  - left. reflexivity.
Defined.

Lemma configure_shows_without_applying_witness :
  emitted (configure dict (λ _, true) id "GET" changed_form)
    (start_state answers ∅)
  = emitted get_status (start_state answers ∅).
Proof.
  apply (configure_shows_without_applying (E:=tool answers) dict (λ _, true) id
           "GET" changed_form (start_state answers ∅)).
  left. discriminate.
Defined.

Lemma configure_post_when_not_installed_witness :
  emitted (configure dict (λ _, true) id "POST" changed_form)
    (start_state not_installed ∅)
  = [[VStr "get-installed"]; [VStr "stop"]].
Proof.
  apply (configure_post_when_not_installed (E:=tool not_installed)
           dict (λ _, true) id changed_form (start_state not_installed ∅)).
  - reflexivity.
  - reflexivity.
Defined.

Lemma configure_valid_post_stops_service_witness :
  ∃ rest,
    emitted (configure dict (λ _, true) id "POST" unchanged_form)
      (start_state answers ∅)
    = queries ++ [VStr "stop"] :: rest.
Proof.
  apply (configure_valid_post_stops_service (E:=tool answers)
           dict (λ _, true) id unchanged_form (start_state answers ∅) current).
  - reflexivity.
  - reflexivity.
  - reflexivity.
Defined.

Lemma configure_applies_posted_data_witness :
  (∃ o old_status new_status messages s4,
    status_of current = Some o ∧
    st_world s4 = st_world (get_status device_state).2 ∧
    st_trace s4 = st_trace (get_status device_state).2 ∧
    st_heap s4 !! old_status = Some (ODict current) ∧
    st_heap s4 !! new_status = Some (ODict changed_form) ∧
    st_heap s4 !! messages = Some (OList []) ∧
    let s5 := (_apply_changes old_status new_status messages s4).2 in
    emitted (_apply_changes old_status new_status messages) s4
      = expected_calls true o changed_status ∧
    emitted (configure dict (λ _, true) id "POST" changed_form) device_state
      = queries ++ expected_calls true o changed_status ++ emitted get_status s5 ∧
    (configure dict (λ _, true) id "POST" changed_form device_state).1 =
      match (get_status s5).1 with
      | Ok status =>
          Ok (Response dict (@gettext device "Configure PageKite")
                (Unbound dict status)
                (expected_messages (E:=device) o changed_status))
      | Raise _ => Raise IndexError
      end) ∧
  (configure dict (λ _, true) id "POST" changed_form device_state).1 =
    Ok (Response dict "Configure PageKite"
          (Unbound dict
             (Some (status_dict false "box.pagekite.me" "other" false true)))
          [("success", "PageKite disabled"); ("success", "Kite details set");
           ("success", "Service disabled: http");
           ("success", "Service enabled: ssh")]).
Proof.
  split.
  - apply (configure_applies_posted_data (E:=device) dict (λ _, true) id
             changed_form device_state current changed_status).
    + reflexivity.
    + reflexivity.
    + reflexivity.
    + reflexivity.
    + vm_compute. repeat constructor.
  - reflexivity.
Defined.

Lemma clean_validates_trimmed_text_witness :
  ∃ pre core post,
    padded = pre ++ core ++ post ∧
    blank ascii isspace pre = true ∧ blank ascii isspace post = true ∧
    trimmed ascii isspace core = true ∧
    clean ascii isspace (option (list ascii)) id (Some padded) = Some core.
Proof.
  apply (clean_validates_trimmed_text ascii isspace (option (list ascii)) id
           padded).
  discriminate.
Defined.

Lemma clean_ignores_surrounding_space_witness :
  clean ascii isspace (option (list ascii)) id (Some padded)
  = Some (list_ascii_of_string "my box").
Proof.
  apply (clean_ignores_surrounding_space ascii isspace (option (list ascii)) id
           (list_ascii_of_string "  ") (list_ascii_of_string "my box")
           (list_ascii_of_string "  ")).
  1-3: reflexivity.
  discriminate.
Defined.
